(** * react-image-reader: the recognition controller of [src/App.tsx]

    A shallow embedding of the three hooks of [App.tsx] ([useWorker],
    [useObjectURL] and the [read] effect of [App]) as a transition system.
    React state cells are fields of a record, every callback the browser or
    the tesseract worker can invoke is an event, and a suspended [async]
    function is a program point kept in the state.

    Conventions.
    - A finite JavaScript number is the rational it denotes ([Q]);
      arithmetic rounds to binary64 ([binary64]), and [Math.round] is
      [floor (x + 1/2)] on the exact value, as ECMAScript prescribes.
    - The value handed to [errorHandler] is a string; the empty string is
      the one that is falsy.
    - A [File] object and an object URL are identified by a natural number
      (object identity, respectively the unique part of a [blob:] URL).
    - The worker is opaque: its calls are logged in [calls], its answers are
      events. *)

From Stdlib Require Import List String ZArith QArith Qround Qpower Bool Arith.
From Stdlib Require Import Lia Lqa Floats.
Import ListNotations.

Local Open Scope string_scope.
Local Open Scope list_scope.
Local Open Scope nat_scope.

(* ------------------------------------------------------------------ *)
(** ** Data *)

Definition File := nat.
Definition URL := nat.
Definition Error := string.

(** [Page] of tesseract.js, restricted to the fields [App] reads. *)
Record Page := mkPage {
  text : string;
  words : list string;
  lines : list string;
  confidence : Q
}.

(** The argument of the worker's [logger] callback. *)
Record LoggerMessage := mkMessage {
  status : string;
  m_progress : Q
}.

(** Calls made on the worker object. *)
Inductive WorkerCall :=
| Load
| LoadLanguage (l : string)
| Initialize (l : string)
| Recognize (img : File).

(** Where the [async] function [init] of [useWorker] is suspended. *)
Inductive InitPc :=
| AwaitLoad
| AwaitLoadLanguage
| AwaitInitialize
| InitDone
| InitRejected.

(** How the promise returned by [worker.recognize] settles. *)
Inductive Outcome :=
| Resolved (data : Page)
| Rejected (reason : Error).

(* ------------------------------------------------------------------ *)
(** ** Object URLs: [URL.createObjectURL], [URL.revokeObjectURL] and the
       hook [useObjectURL] *)

Module ObjectURL.

(** The browser's registry of object URLs. *)
Record Store := mkStore {
  live : list (URL * File);
  fresh : URL
}.

Definition empty : Store := {| live := []; fresh := 0 |}.

Definition createObjectURL (s : Store) (f : File) : URL * Store :=
  (fresh s, {| live := live s ++ [(fresh s, f)]; fresh := S (fresh s) |}).

Definition revokeObjectURL (s : Store) (u : URL) : Store :=
  {| live := filter (fun e => negb (Nat.eqb (fst e) u)) (live s);
     fresh := fresh s |}.

(** The hook instance: its state cell, the dependency array of the last
    run of its effect, and the URL captured by the cleanup the effect
    returned ([None] when it returned nothing). *)
Record Hook := mkHook {
  objUrl : option URL;
  deps : option (option File);
  cleanup : option URL
}.

Definition initial : Hook :=
  {| objUrl := None; deps := None; cleanup := None |}.

Definition img_eqb (a b : option File) : bool :=
  match a, b with
  | Some x, Some y => Nat.eqb x y
  | None, None => true
  | _, _ => false
  end.

Definition deps_changed (h : Hook) (img : option File) : bool :=
  match deps h with
  | Some old => negb (img_eqb old img)
  | None => true
  end.

(** React runs the cleanup of the previous effect first ... *)
Definition run_cleanup (hs : Hook * Store) : Hook * Store :=
  let (h, s) := hs in
  match cleanup h with
  | Some url =>
      ({| objUrl := objUrl h; deps := deps h; cleanup := None |},
       revokeObjectURL s url)
  | None => (h, s)
  end.

(** ... and then the effect body. *)
Definition run_effect (img : option File) (hs : Hook * Store) : Hook * Store :=
  let (h, s) := hs in
  match img with
  | Some f =>
      let (url, s') := createObjectURL s f in
      ({| objUrl := Some url; deps := Some img; cleanup := Some url |}, s')
  | None =>
      ({| objUrl := None; deps := Some img; cleanup := None |}, s)
  end.

(** One render of a component calling [useObjectURL img]. *)
Definition useObjectURL (img : option File) (hs : Hook * Store) : Hook * Store :=
  if deps_changed (fst hs) img then run_effect img (run_cleanup hs) else hs.

Definition unmount (hs : Hook * Store) : Hook * Store := run_cleanup hs.

(** Successive renders, and every intermediate configuration they go
    through (after each cleanup and after each effect body). *)
Fixpoint renders (imgs : list (option File)) (hs : Hook * Store) : Hook * Store :=
  match imgs with
  | [] => hs
  | img :: rest => renders rest (useObjectURL img hs)
  end.

Fixpoint history (imgs : list (option File)) (hs : Hook * Store)
  : list (Hook * Store) :=
  match imgs with
  | [] => []
  | img :: rest =>
      (if deps_changed (fst hs) img
       then [run_cleanup hs; run_effect img (run_cleanup hs)]
       else [hs])
      ++ history rest (useObjectURL img hs)
  end.

Definition handles (hs : Hook * Store) : nat := List.length (live (snd hs)).

(** The registry holds exactly what the pending cleanup will revoke. *)
Definition tracked (hs : Hook * Store) : Prop :=
  match cleanup (fst hs) with
  | Some url => exists f, live (snd hs) = [(url, f)]
  | None => live (snd hs) = []
  end.

(** The image the hook was last rendered with ([cur] before any render). *)
Fixpoint bound (cur : option File) (imgs : list (option File)) : option File :=
  match imgs with
  | [] => cur
  | img :: rest => bound img rest
  end.

(** [cur] is the image of the last render: the dependency array records
    it, and a cleanup is pending exactly when it is a file. *)
Definition inv (cur : option File) (hs : Hook * Store) : Prop :=
  tracked hs /\
  match deps (fst hs) with
  | Some d => d = cur
  | None => cur = None
  end /\
  (cur = None <-> cleanup (fst hs) = None).

End ObjectURL.

(* ------------------------------------------------------------------ *)
(** ** The state of the mounted [App] *)

Definition lang : string := "eng".

Record State := mkState {
  (* useWorker *)
  progress : Z;
  error : option Error;
  (* App *)
  ocr : option Page;
  image : option File;
  loading : bool;
  (* useObjectURL and the browser *)
  hook : ObjectURL.Hook;
  store : ObjectURL.Store;
  (* suspended async functions and the worker *)
  init : InitPc;
  reads : list nat;
  jobs : nat;
  calls : list WorkerCall
}.

Definition setProgress (v : Z) (st : State) : State :=
  mkState v (error st) (ocr st) (image st) (loading st) (hook st) (store st)
          (init st) (reads st) (jobs st) (calls st).

Definition setError (e : option Error) (st : State) : State :=
  mkState (progress st) e (ocr st) (image st) (loading st) (hook st) (store st)
          (init st) (reads st) (jobs st) (calls st).

Definition clearError (st : State) : State := setError None st.

Definition setOcr (d : option Page) (st : State) : State :=
  mkState (progress st) (error st) d (image st) (loading st) (hook st) (store st)
          (init st) (reads st) (jobs st) (calls st).

Definition setImage (f : option File) (st : State) : State :=
  mkState (progress st) (error st) (ocr st) f (loading st) (hook st) (store st)
          (init st) (reads st) (jobs st) (calls st).

Definition setLoading (b : bool) (st : State) : State :=
  mkState (progress st) (error st) (ocr st) (image st) b (hook st) (store st)
          (init st) (reads st) (jobs st) (calls st).

Definition withObjectURL (hs : ObjectURL.Hook * ObjectURL.Store) (st : State) : State :=
  mkState (progress st) (error st) (ocr st) (image st) (loading st) (fst hs) (snd hs)
          (init st) (reads st) (jobs st) (calls st).

Definition setInit (pc : InitPc) (st : State) : State :=
  mkState (progress st) (error st) (ocr st) (image st) (loading st) (hook st) (store st)
          pc (reads st) (jobs st) (calls st).

Definition setReads (l : list nat) (st : State) : State :=
  mkState (progress st) (error st) (ocr st) (image st) (loading st) (hook st) (store st)
          (init st) l (jobs st) (calls st).

(** Calling a method of the worker. *)
Definition call (c : WorkerCall) (st : State) : State :=
  mkState (progress st) (error st) (ocr st) (image st) (loading st) (hook st) (store st)
          (init st) (reads st) (jobs st) (calls st ++ [c]).

(** A new invocation of [read] suspends at its [await]; invocations are
    numbered in the order they start. *)
Definition suspend_read (st : State) : State :=
  mkState (progress st) (error st) (ocr st) (image st) (loading st) (hook st) (store st)
          (init st) (reads st ++ [jobs st]) (S (jobs st)) (calls st).

(* ------------------------------------------------------------------ *)
(** ** JavaScript numbers

    A Number is an IEEE 754 binary64 value.  A finite one is the rational
    it denotes; [binary64] rounds a rational to the nearest binary64
    value, ties to even, with 53 significant bits and exponents from
    -1074 up.  There is no upper exponent bound: magnitudes of 2^1024 and
    more, which the code holds as [Infinity], are outside this model. *)

Definition pow2 (e : Z) : Q := Qpower 2 e.

(** [floor (log2 x)], for [x > 0]. *)
Definition ilog2 (x : Q) : Z :=
  let k := (Z.log2 (Qnum x) - Z.log2 (Zpos (Qden x)))%Z in
  if Qle_bool (pow2 k) x then k else (k - 1)%Z.

(** The exponent of the last significant bit of [x > 0]: 52 below its
    leading bit, and -1074 for subnormal numbers. *)
Definition exponent (x : Q) : Z := Z.max (ilog2 x - 52) (-1074).

(** The nearest integer, ties to the even one. *)
Definition roundHalfEven (y : Q) : Z :=
  match Qcompare (y - inject_Z (Qfloor y)) (1 # 2) with
  | Lt => Qfloor y
  | Gt => (Qfloor y + 1)%Z
  | Eq => if Z.even (Qfloor y) then Qfloor y else (Qfloor y + 1)%Z
  end.

(** The nearest multiple of [2 ^ exponent x], for [x > 0]. *)
Definition nearest (x : Q) : Q :=
  inject_Z (roundHalfEven (x * pow2 (- exponent x))) * pow2 (exponent x).

Definition binary64 (x : Q) : Q :=
  match Qcompare x 0 with
  | Eq => 0
  | Gt => nearest x
  | Lt => - nearest (- x)
  end.

(** The Number a numeric value is held as, and the product [a * b] of two
    Numbers. *)
Definition number (q : Q) : Q := binary64 q.

Definition times (a b : Q) : Q := binary64 (a * b).

(** A rational that is a binary64 value. *)
Definition isNumber (q : Q) : Prop := (number q == q)%Q.

(* ------------------------------------------------------------------ *)
(** ** [useWorker] *)

(** [Math.round] of a finite Number: the nearest integer, a tie going to
    the larger one. *)
Definition Math_round (x : Q) : Z := Qfloor (x + (1 # 2)).

(** [Math.round(m.progress * 100)]: [m.progress] is a Number and the
    product is the binary64 one. *)
Definition percent (fraction : Q) : Z :=
  Math_round (times (number fraction) 100).

Arguments percent : simpl never.

(** [logger: (m) => { if (m?.status === "recognizing text")
                       setProgress(Math.round(m.progress * 100)) }] *)
Definition logger (m : option LoggerMessage) (st : State) : State :=
  match m with
  | Some m =>
      if String.eqb (status m) "recognizing text"
      then setProgress (percent (m_progress m)) st
      else st
  | None => st
  end.

(** [errorHandler: (e) => { setError(e) }] *)
Definition errorHandler (e : Error) (st : State) : State :=
  setError (Some e) st.

(** The continuation of [init] after the call it awaits has settled.  A
    rejection ends [init]; nothing observes the promise it returns. *)
Definition init_continue (ok : bool) (st : State) : State :=
  match init st, ok with
  | AwaitLoad, true => setInit AwaitLoadLanguage (call (LoadLanguage lang) st)
  | AwaitLoadLanguage, true => setInit AwaitInitialize (call (Initialize lang) st)
  | AwaitInitialize, true => setInit InitDone st
  | (AwaitLoad | AwaitLoadLanguage | AwaitInitialize), false => setInit InitRejected st
  | (InitDone | InitRejected), _ => st
  end.

(* ------------------------------------------------------------------ *)
(** ** [App] *)

(** [read], up to its [await]. *)
Definition read_start (img : File) (st : State) : State :=
  suspend_read (call (Recognize img) (setLoading true st)).

(** [read], from its [await] on. *)
Definition read_continue (r : Outcome) (st : State) : State :=
  match r with
  | Resolved data => setLoading false (setOcr (Some data) (clearError st))
  | Rejected _ => setLoading false st
  end.

(** The effects whose dependency [image] changed, in hook order. *)
Definition image_effects (st : State) : State :=
  let st1 := withObjectURL (ObjectURL.useObjectURL (image st) (hook st, store st)) st in
  match image st1 with
  | Some img => read_start img st1
  | None => st1
  end.

(** [onImageChange]; [setImage] with the value already held does not
    re-render. *)
Definition onImageChange (file : option File) (st : State) : State :=
  match file with
  | None => st
  | Some f =>
      if ObjectURL.img_eqb (image st) (Some f) then st
      else image_effects (setImage (Some f) st)
  end.

(** The state once [App] is mounted: the first render ran the three
    effects with [image = null], so [init] awaits [worker.load()]. *)
Definition mount : State :=
  let hs := ObjectURL.useObjectURL None (ObjectURL.initial, ObjectURL.empty) in
  {| progress := 0; error := None; ocr := None; image := None; loading := false;
     hook := fst hs; store := snd hs;
     init := AwaitLoad; reads := []; jobs := 0; calls := [Load] |}.

(** What can happen to a mounted [App]. *)
Inductive Event :=
| InitSettle (ok : bool)
| ImageChange (file : option File)
| Status (job : nat) (m : option LoggerMessage)
| EngineError (e : Error)
| RecognizeSettle (job : nat) (r : Outcome).

Definition pending (job : nat) (st : State) : bool :=
  existsb (Nat.eqb job) (reads st).

Definition step (st : State) (ev : Event) : State :=
  match ev with
  | InitSettle ok => init_continue ok st
  | ImageChange file => onImageChange file st
  | Status _ m => logger m st
  | EngineError e => errorHandler e st
  | RecognizeSettle job r =>
      if pending job st
      then read_continue r
             (setReads (filter (fun j => negb (Nat.eqb j job)) (reads st)) st)
      else st
  end.

Definition run (st : State) (evs : list Event) : State := fold_left step evs st.

(** The read-only snapshot handed to the presentation layer. *)
Definition snapshot (st : State) : bool * Z * option Page * option Error :=
  (loading st, progress st, ocr st, error st).

(** Session [job] has been superseded: a later submission has started. *)
Definition superseded (job : nat) (st : State) : bool :=
  pending job st && Nat.ltb (S job) (jobs st).

(** The session started by the last submission. *)
Definition current (st : State) : option nat :=
  match jobs st with
  | O => None
  | S j => Some j
  end.

Definition recognizing (ev : Event) : bool :=
  match ev with
  | Status _ (Some m) => String.eqb (status m) "recognizing text"
  | _ => false
  end.

(** Events that belong to the bootstrap or to the status stream. *)
Definition quiet (ev : Event) : bool :=
  match ev with
  | InitSettle _ | Status _ _ => true
  | _ => false
  end.

(** Events that write [error]. *)
Definition writes_error (st : State) (ev : Event) : bool :=
  match ev with
  | EngineError _ => true
  | RecognizeSettle job (Resolved _) => pending job st
  | _ => false
  end.

(** Events that write [loading]. *)
Definition writes_loading (st : State) (ev : Event) : bool :=
  match ev with
  | ImageChange (Some f) => negb (ObjectURL.img_eqb (image st) (Some f))
  | RecognizeSettle job _ => pending job st
  | _ => false
  end.

(** While [loading] is true, the [read] of the last submission is in flight. *)
Definition loading_tracked (st : State) : Prop :=
  loading st = true ->
  exists j, current st = Some j /\ pending j st = true.

(** The bootstrap rejects in [st0], then [evs] happen. *)
Definition afterRejectedBootstrap (st0 : State) (evs : list Event) : State :=
  run (step st0 (InitSettle false)) evs.

(** A first submission of [f] to a freshly mounted [App]: [pre] happens
    before it, [mid] while it is being read, the engine's last status event
    reports [fraction], and the recognition call then settles with [r]. *)
Definition firstSubmission (pre : list Event) (f : File) (mid : list Event)
           (fraction : Q) (r : Outcome) : list Event :=
  pre ++ [ImageChange (Some f)] ++ mid
      ++ [Status 0 (Some {| status := "recognizing text"; m_progress := fraction |});
          RecognizeSettle 0 r].

(* ------------------------------------------------------------------ *)
(** ** Sample data and runs *)

Module Sample.

Definition tenWords : list string :=
  ["the"; "quick"; "brown"; "fox"; "jumps"; "over"; "the"; "lazy"; "dog"; "again"].

Definition twoLines : list string :=
  ["the quick brown fox jumps"; "over the lazy dog again"].

Definition pageA : Page :=
  {| text := "the quick brown fox jumps over the lazy dog again";
     words := tenWords; lines := twoLines; confidence := 185 # 2 |}.

Definition pageB : Page :=
  {| text := "b"; words := ["b"]; lines := ["b"]; confidence := 40 |}.

Definition fault : Error := "Error: Error attempting to read image.".

Definition recognizingAt (fraction : Q) : option LoggerMessage :=
  Some {| status := "recognizing text"; m_progress := fraction |}.

Definition bootstrapped : list Event :=
  [InitSettle true; InitSettle true; InitSettle true].

(** Image 1 is submitted, then image 2 while 1 is still being read. *)
Definition overlapping : State :=
  run mount (bootstrapped ++ [ImageChange (Some 1); ImageChange (Some 2)]).

(** The bootstrap fails at [worker.load()], then image 1 is submitted. *)
Definition afterFailedBootstrap : State :=
  run mount [InitSettle false; ImageChange (Some 1)].

(** Image 1 has been read successfully. *)
Definition afterSuccess : State :=
  run mount (bootstrapped ++
             [ImageChange (Some 1); Status 0 (recognizingAt 1);
              RecognizeSettle 0 (Resolved pageA)]).

(** The engine has reported a fault for image 1. *)
Definition afterFault : State :=
  run mount (bootstrapped ++
             [ImageChange (Some 1); EngineError fault;
              RecognizeSettle 0 (Rejected fault)]).

(** Image 1 has been read; image 2 is submitted and the engine rejects
    it, reporting the fault to the error handler as well. *)
Definition afterSuccessThenFault : State :=
  run afterSuccess
      [ImageChange (Some 2); EngineError fault; RecognizeSettle 1 (Rejected fault)].

(** Image 1 is 30% read when image 2 is submitted. *)
Definition overlappingAt30 : State :=
  run mount (bootstrapped ++
             [ImageChange (Some 1); Status 0 (recognizingAt (3 # 10));
              ImageChange (Some 2)]).

(** The read of image 2 fails without ever reaching recognition. *)
Definition failingRead : list Event :=
  [Status 1 (Some {| status := "loading language traineddata"; m_progress := 1 |});
   EngineError fault;
   RecognizeSettle 1 (Rejected fault)].

End Sample.

(* ------------------------------------------------------------------ *)
(** ** What [App] renders *)

(** The content of the panel below the preview. *)
Inductive Body :=
| ProgressBar (value : Z)
| Results (nWords nLines : nat) (conf : Q) (shown : string)
| Placeholder.

(** [error ? <Alert/> : <Flex> {objUrl && <Image/>} ... </Flex>] *)
Inductive View :=
| ErrorAlert
| Panel (preview : option URL) (body : Body).

(** Truthiness of the value held in [error]. *)
Definition truthy (e : Error) : bool := negb (String.eqb e "").

Definition alerting (st : State) : bool :=
  match error st with
  | Some e => truthy e
  | None => false
  end.

Definition panel (st : State) : View :=
  Panel (ObjectURL.objUrl (hook st))
        (if loading st then ProgressBar (progress st)
         else match ocr st with
              | Some page =>
                  Results (List.length (words page)) (List.length (lines page))
                          (confidence page) (text page)
              | None => Placeholder
              end).

Definition render (st : State) : View :=
  if alerting st then ErrorAlert else panel st.

(* ------------------------------------------------------------------ *)
(** ** Reading runs *)

(** The calls of [init], in the order it makes them. *)
Definition bootstrapCalls : list WorkerCall :=
  [Load; LoadLanguage lang; Initialize lang].

Definition isRecognize (c : WorkerCall) : bool :=
  match c with
  | Recognize _ => true
  | _ => false
  end.

(** The bootstrap calls among [cs], and the images [cs] asks to read. *)
Definition bootstrap (cs : list WorkerCall) : list WorkerCall :=
  filter (fun c => negb (isRecognize c)) cs.

Definition recognized (cs : list WorkerCall) : list File :=
  flat_map (fun c => match c with Recognize f => [f] | _ => [] end) cs.

(** How many bootstrap calls [init] has made when it is at [pc]. *)
Definition stage (pc : InitPc) (n : nat) : Prop :=
  match pc with
  | AwaitLoad => n = 1
  | AwaitLoadLanguage => n = 2
  | AwaitInitialize | InitDone => n = 3
  | InitRejected => 1 <= n <= 3
  end.

(** The files of the [ImageChange] events of [evs] that differ from the
    image held when they arrive, [cur] being the image held at first. *)
Fixpoint changes (cur : option File) (evs : list Event) : list File :=
  match evs with
  | [] => []
  | ImageChange (Some f) :: rest =>
      if ObjectURL.img_eqb cur (Some f) then changes cur rest
      else f :: changes (Some f) rest
  | _ :: rest => changes cur rest
  end.

(** The fraction of the last ["recognizing text"] event of [evs], [acc]
    when there is none. *)
Fixpoint lastFraction (evs : list Event) (acc : option Q) : option Q :=
  match evs with
  | [] => acc
  | Status _ (Some m) :: rest =>
      lastFraction rest
        (if String.eqb (status m) "recognizing text" then Some (m_progress m) else acc)
  | _ :: rest => lastFraction rest acc
  end.

(** Status events whose fraction lies in [0,1]. *)
Definition wellFormed (ev : Event) : bool :=
  match ev with
  | Status _ (Some m) => Qle_bool 0 (m_progress m) && Qle_bool (m_progress m) 1
  | _ => true
  end.

(** Events that take the error alert down: a settlement with a page,
    which clears [error], and a falsy value handed to [errorHandler]. *)
Definition dismisses (ev : Event) : bool :=
  match ev with
  | RecognizeSettle _ (Resolved _) => true
  | EngineError e => negb (truthy e)
  | _ => false
  end.


(** The hook shows [cur]: for a file, its state cell holds the one live
    URL, which refers to that file; for [null], nothing is held or live. *)
Definition shows (cur : option File) (hs : ObjectURL.Hook * ObjectURL.Store) : Prop :=
  match cur with
  | Some f =>
      exists u, ObjectURL.objUrl (fst hs) = Some u /\
                ObjectURL.live (snd hs) = [(u, f)]
  | None =>
      ObjectURL.objUrl (fst hs) = None /\ ObjectURL.live (snd hs) = []
  end.

(** [shows], with what the next render relies on: the pending cleanup
    revokes the URL held, and the dependency array records [cur]. *)
Definition settled (cur : option File) (hs : ObjectURL.Hook * ObjectURL.Store) : Prop :=
  shows cur hs /\
  ObjectURL.cleanup (fst hs) = ObjectURL.objUrl (fst hs) /\
  match ObjectURL.deps (fst hs) with
  | Some d => d = cur
  | None => cur = None
  end.

(** The bootstrap calls made so far are the first ones of [bootstrapCalls],
    as many as the program point of [init] tells. *)
Definition bootstrap_ordered (st : State) : Prop :=
  exists n, stage (init st) n /\ bootstrap (calls st) = firstn n bootstrapCalls.

(* ------------------------------------------------------------------ *)
(** ** More sample runs *)

Module Scenario.

(** Image 1 is submitted and read in two status events. *)
Definition readInTwoSteps : list Event :=
  [ImageChange (Some 1); Status 0 (Sample.recognizingAt (1 # 3));
   Status 0 (Sample.recognizingAt 1)].

(** After a fault on image 1, image 2 is submitted and rejected too. *)
Definition failedRetry : list Event :=
  [ImageChange (Some 2); Status 1 (Sample.recognizingAt (1 # 2));
   EngineError Sample.fault; RecognizeSettle 1 (Rejected Sample.fault)].

(** The events leading to [Sample.overlappingAt30]. *)
Definition overlappingEvents : list Event :=
  Sample.bootstrapped ++
  [ImageChange (Some 1); Status 0 (Sample.recognizingAt (3 # 10));
   ImageChange (Some 2)].

(** Image 2 is submitted with the fault of image 1 on display. *)
Definition retrying : State := run Sample.afterFault [ImageChange (Some 2)].

(** The whole percentages. *)
Definition hundredths : list Z := map Z.of_nat (seq 0 101).

End Scenario.

(* ------------------------------------------------------------------ *)
(** ** [binary64] against the primitive floats of the kernel *)

Module Hardware.

(** The rational a finite primitive float denotes. *)
Definition value (f : float) : option Q :=
  match Prim2SF f with
  | S754_zero _ => Some 0%Q
  | S754_finite s m e =>
      Some ((if s then -1 else 1) * inject_Z (Zpos m) * pow2 e)%Q
  | _ => None
  end.

(** For the decimal [q] and the float [d] written with the same digits:
    [number q] is [d], [d] is a fixed point of [number], and
    [times (number q) 100] is the hardware product [d * 100]. *)
Definition agrees (dq : float * Q) : bool :=
  match value (fst dq), value (fst dq * 100)%float with
  | Some d, Some p =>
      Qeq_bool (number (snd dq)) d && Qeq_bool (number d) d &&
      Qeq_bool (times (number (snd dq)) 100) p
  | _, _ => false
  end.

Definition samples : list (float * Q) :=
  [ (0x1.eb851eb851eb8p-7%float, 15 # 1000);          (* 0.015 *)
    (0x1.23d70a3d70a3dp-2%float, 285 # 1000);         (* 0.285 *)
    (0x1.47ae147ae147bp-8%float, 5 # 1000);           (* 0.005 *)
    (0x1.fd70a3d70a3d7p-1%float, 995 # 1000);         (* 0.995 *)
    (0x1.28f5c28f5c28fp-3%float, 145 # 1000);         (* 0.145 *)
    (0x1.2666666666666p-1%float, 575 # 1000);         (* 0.575 *)
    (0x1.3333333333333p-2%float, 3 # 10);             (* 0.3 *)
    (0x1.3333333333333p-1%float, 6 # 10);             (* 0.6 *)
    (0x1.ccccccccccccdp-1%float, 9 # 10);             (* 0.9 *)
    (0x1.7ae147ae147aep-2%float, 37 # 100);           (* 0.37 *)
    (0x1.1eb851eb851ecp-4%float, 7 # 100);            (* 0.07 *)
    (0x1p-1%float, 1 # 2);
    (0x1p+0%float, 1);
    (0x0p+0%float, 0);
    (0x1.fffffffffffffp-2%float, 49999999999999994 # 100000000000000000);
    (0x1.d6f34547e6b75p+26%float, 123456789123456789 # 1000000000);
    (0x1.b1ae4d6e2ef5p+69%float, 1000000000000000000000);   (* 1e21 *)
    ((-0x1.eb851eb851eb8p-7)%float, - 15 # 1000);     (* -0.015 *)
    (0x0.00000000007e8p-1022%float, 1 # 10 ^ 320);    (* 1e-320, subnormal *)
    (0x0.0000000000001p-1022%float, 49 # 10 ^ 325)    (* 4.9e-324, the least *)
  ]%Q.

End Hardware.

(* ------------------------------------------------------------------ *)
(** ** [useObjectURL]: one handle at a time *)

Module ObjectURLFacts.
Import ObjectURL.

Lemma img_eqb_eq a b : img_eqb a b = true <-> a = b.
Proof.
  destruct a as [x|], b as [y|]; simpl; split; intro H;
    try discriminate; try reflexivity.
  - apply Nat.eqb_eq in H. now subst.
  - inversion H. apply Nat.eqb_refl.
Qed.

Lemma inv_initial : inv None (initial, empty).
Proof. repeat split; reflexivity. Qed.

Lemma cleanup_releases hs :
  tracked hs ->
  live (snd (run_cleanup hs)) = [] /\ cleanup (fst (run_cleanup hs)) = None.
Proof.
  destruct hs as [h s]. unfold tracked, run_cleanup. simpl.
  destruct (cleanup h) as [url|] eqn:E; simpl.
  - intros [f Hl]. rewrite Hl. simpl. rewrite Nat.eqb_refl. simpl. auto.
  - auto.
Qed.

Lemma effect_binds img hs :
  live (snd hs) = [] -> inv img (run_effect img hs).
Proof.
  destruct hs as [h s]. simpl. intros Hl.
  destruct img as [f|]; unfold inv, tracked; simpl.
  - rewrite Hl. simpl. repeat split; try discriminate. now exists f.
  - repeat split; auto.
Qed.

Lemma inv_handles cur hs :
  inv cur hs -> handles hs = match cur with Some _ => 1 | None => 0 end.
Proof.
  intros (Ht & _ & Hc). unfold tracked in Ht. unfold handles.
  destruct (cleanup (fst hs)) as [url|] eqn:E.
  - destruct Ht as [f ->]. destruct cur; [reflexivity|].
    destruct Hc as [Hc _]. now specialize (Hc eq_refl).
  - rewrite Ht. destruct cur; [|reflexivity].
    destruct Hc as [_ Hc]. now specialize (Hc eq_refl).
Qed.

Lemma useObjectURL_inv cur img hs :
  inv cur hs -> inv img (useObjectURL img hs).
Proof.
  intros Hi. unfold useObjectURL.
  destruct (deps_changed (fst hs) img) eqn:E.
  - apply effect_binds. apply cleanup_releases. apply Hi.
  - unfold deps_changed in E. destruct Hi as (Ht & Hd & Hc).
    destruct (deps (fst hs)) as [d|] eqn:Ed; [|discriminate].
    apply negb_false_iff, img_eqb_eq in E. subst.
    unfold inv. rewrite Ed. auto.
Qed.

Lemma renders_inv imgs : forall cur hs,
  inv cur hs -> inv (bound cur imgs) (renders imgs hs).
Proof.
  induction imgs as [|img rest IH]; intros cur hs Hi; simpl.
  - exact Hi.
  - apply IH. eapply useObjectURL_inv; eauto.
Qed.

Lemma history_bounded imgs : forall cur hs,
  inv cur hs -> Forall (fun c => handles c <= 1) (history imgs hs).
Proof.
  induction imgs as [|img rest IH]; intros cur hs Hi; simpl.
  - constructor.
  - apply Forall_app. split.
    + destruct (deps_changed (fst hs) img).
      * constructor.
        -- unfold handles.
           destruct (cleanup_releases hs (proj1 Hi)) as [-> _]. simpl. lia.
        -- constructor; [|constructor].
           rewrite (inv_handles img).
           ++ destruct img; lia.
           ++ apply effect_binds. apply cleanup_releases. apply Hi.
      * constructor; [|constructor].
        rewrite (inv_handles cur hs Hi). destruct cur; lia.
    + eapply IH. eapply useObjectURL_inv; eauto.
Qed.

Lemma unmount_releases cur hs : inv cur hs -> handles (unmount hs) = 0.
Proof.
  intros Hi. unfold handles, unmount.
  now destruct (cleanup_releases hs (proj1 Hi)) as [-> _].
Qed.

End ObjectURLFacts.

(* ------------------------------------------------------------------ *)
(** ** Rounding to binary64 is monotone *)

Module Binary64Facts.
Local Open Scope Q_scope.

Ltac compared H :=
  match type of H with
  | (_ ?= _) = Eq => apply Qeq_alt in H
  | (_ ?= _) = Lt => apply Qlt_alt in H
  | (_ ?= _) = Gt => apply Qgt_alt in H
  end.

Lemma two_nonzero : ~ 2 == 0.
Proof. intros H. discriminate H. Qed.

Lemma pow2_pos e : 0 < pow2 e.
Proof. apply Qpower_0_lt. reflexivity. Qed.

Lemma pow2_add a b : pow2 (a + b) == pow2 a * pow2 b.
Proof. apply Qpower_plus, two_nonzero. Qed.

Lemma pow2_le a b : (a <= b)%Z -> pow2 a <= pow2 b.
Proof. intros H. apply Qpower_le_compat_l; [exact H | discriminate]. Qed.

Lemma pow2_inject n : (0 <= n)%Z -> inject_Z (2 ^ n) == pow2 n.
Proof. apply Zpower_Qpower. Qed.

Lemma inject_le a b : (a <= b)%Z -> inject_Z a <= inject_Z b.
Proof. intros H. unfold Qle. simpl. lia. Qed.

Lemma inject_lt a b : (a < b)%Z -> inject_Z a < inject_Z b.
Proof. intros H. unfold Qlt. simpl. lia. Qed.

(** [ilog2 x] is the exponent of the leading bit of [x]. *)
Lemma ilog2_spec x : 0 < x -> pow2 (ilog2 x) <= x < pow2 (ilog2 x + 1).
Proof.
  intros Hx. destruct x as [n d].
  assert (Hn : (0 < n)%Z).
  { unfold Qlt in Hx. simpl in Hx. lia. }
  pose proof (Z.log2_spec n Hn) as [Hn1 Hn2].
  pose proof (Z.log2_spec (Zpos d) (Pos2Z.is_pos d)) as [Hd1 Hd2].
  pose proof (Z.log2_nonneg n) as Ha.
  pose proof (Z.log2_nonneg (Zpos d)) as Hb.
  set (a := Z.log2 n) in *. set (b := Z.log2 (Zpos d)) in *.
  assert (Hn1q : pow2 a <= inject_Z n).
  { rewrite <- (pow2_inject a) by lia. now apply inject_le. }
  assert (Hn2q : inject_Z n < pow2 (Z.succ a)).
  { rewrite <- (pow2_inject (Z.succ a)) by lia. now apply inject_lt. }
  assert (Hd1q : pow2 b <= inject_Z (Zpos d)).
  { rewrite <- (pow2_inject b) by lia. now apply inject_le. }
  assert (Hd2q : inject_Z (Zpos d) < pow2 (Z.succ b)).
  { rewrite <- (pow2_inject (Z.succ b)) by lia. now apply inject_lt. }
  clear Hn1 Hn2 Hd1 Hd2.
  assert (Hq : (n # d) * inject_Z (Zpos d) == inject_Z n).
  { unfold Qeq, Qmult, inject_Z. simpl. rewrite Pos.mul_1_r. lia. }
  assert (Hdpos : 0 < inject_Z (Zpos d)) by reflexivity.
  set (x := n # d) in *. set (dq := inject_Z (Zpos d)) in *.
  set (nq := inject_Z n) in *.
  assert (Hup : x < pow2 (a - b + 1)).
  { assert (E : pow2 (Z.succ a) == pow2 (a - b + 1) * pow2 b).
    { rewrite <- pow2_add. now replace (a - b + 1 + b)%Z with (Z.succ a) by lia. }
    pose proof (pow2_pos (a - b + 1)) as HP.
    apply (Qmult_lt_r _ _ dq Hdpos).
    rewrite Hq. eapply Qlt_le_trans; [exact Hn2q|].
    rewrite E. apply Qmult_le_l; assumption. }
  assert (Hlo : pow2 (a - b - 1) <= x).
  { assert (E : pow2 a == pow2 (a - b - 1) * pow2 (Z.succ b)).
    { rewrite <- pow2_add. now replace (a - b - 1 + Z.succ b)%Z with a by lia. }
    pose proof (pow2_pos (a - b - 1)) as HP.
    apply (Qmult_le_r _ _ dq Hdpos).
    rewrite Hq. eapply Qle_trans; [|exact Hn1q].
    rewrite E. apply Qmult_le_l; [assumption|]. now apply Qlt_le_weak. }
  unfold ilog2. change (Qnum x) with n. change (Zpos (Qden x)) with (Zpos d).
  fold a b.
  destruct (Qle_bool (pow2 (a - b)) x) eqn:E.
  - apply Qle_bool_iff in E. split; assumption.
  - assert (Hlt : x < pow2 (a - b)).
    { apply Qnot_le_lt. intros H. apply Qle_bool_iff in H. congruence. }
    replace (a - b - 1 + 1)%Z with (a - b)%Z by lia. split; assumption.
Qed.

Lemma ilog2_mono x y : 0 < x -> x <= y -> (ilog2 x <= ilog2 y)%Z.
Proof.
  intros Hx Hxy.
  assert (Hy : 0 < y) by (eapply Qlt_le_trans; eauto).
  destruct (ilog2_spec x Hx) as [Hx1 _].
  destruct (ilog2_spec y Hy) as [_ Hy2].
  destruct (Z.le_gt_cases (ilog2 x) (ilog2 y)) as [H|H]; [exact H|].
  assert (Hp : pow2 (ilog2 y + 1) <= pow2 (ilog2 x)) by (apply pow2_le; lia).
  exfalso. lra.
Qed.

Lemma exponent_mono x y : 0 < x -> x <= y -> (exponent x <= exponent y)%Z.
Proof.
  intros Hx Hxy. pose proof (ilog2_mono x y Hx Hxy). unfold exponent. lia.
Qed.

Lemma roundHalfEven_cases y :
  roundHalfEven y = Qfloor y \/ roundHalfEven y = (Qfloor y + 1)%Z.
Proof.
  unfold roundHalfEven.
  destruct (y - inject_Z (Qfloor y) ?= 1 # 2); auto.
  destruct (Z.even (Qfloor y)); auto.
Qed.

Lemma roundHalfEven_mono y1 y2 :
  y1 <= y2 -> (roundHalfEven y1 <= roundHalfEven y2)%Z.
Proof.
  intros Hle. pose proof (Qfloor_resp_le _ _ Hle) as Hf.
  destruct (Z.eq_dec (Qfloor y1) (Qfloor y2)) as [E|E].
  - unfold roundHalfEven. rewrite E.
    destruct (y1 - inject_Z (Qfloor y2) ?= 1 # 2) eqn:C1;
      destruct (y2 - inject_Z (Qfloor y2) ?= 1 # 2) eqn:C2;
      compared C1; compared C2;
      try (exfalso; lra);
      destruct (Z.even (Qfloor y2)); lia.
  - destruct (roundHalfEven_cases y1) as [-> | ->];
      destruct (roundHalfEven_cases y2) as [-> | ->]; lia.
Qed.

Lemma roundHalfEven_inject z : roundHalfEven (inject_Z z) = z.
Proof.
  unfold roundHalfEven. rewrite Qfloor_Z.
  destruct (inject_Z z - inject_Z z ?= 1 # 2) eqn:C; compared C;
    [exfalso; lra | reflexivity | exfalso; lra].
Qed.

Lemma nearest_nonneg x : 0 < x -> 0 <= nearest x.
Proof.
  intros Hx. unfold nearest.
  pose proof (pow2_pos (exponent x)) as Hp.
  pose proof (pow2_pos (- exponent x)) as Hn.
  apply Qmult_le_0_compat; [|lra].
  change 0 with (inject_Z 0). apply inject_le.
  rewrite <- (roundHalfEven_inject 0). apply roundHalfEven_mono.
  change (inject_Z 0) with 0. apply Qmult_le_0_compat; lra.
Qed.

(** Within a binade rounding is monotone; across binades the power of two
    between them separates the results. *)
Lemma nearest_mono x y : 0 < x -> x <= y -> nearest x <= nearest y.
Proof.
  intros Hx Hxy.
  assert (Hy : 0 < y) by (eapply Qlt_le_trans; eauto).
  pose proof (exponent_mono x y Hx Hxy) as He.
  unfold nearest.
  destruct (Z.eq_dec (exponent x) (exponent y)) as [E|E].
  - rewrite E. apply Qmult_le_compat_r; [|apply Qlt_le_weak, pow2_pos].
    apply inject_le, roundHalfEven_mono.
    apply Qmult_le_compat_r; [exact Hxy | apply Qlt_le_weak, pow2_pos].
  - set (ex := exponent x) in *. set (ey := exponent y) in *.
    apply Qle_trans with (pow2 (53 + ex)).
    + rewrite pow2_add.
      apply Qmult_le_compat_r; [|apply Qlt_le_weak, pow2_pos].
      rewrite <- (pow2_inject 53) by lia. apply inject_le.
      rewrite <- (roundHalfEven_inject (2 ^ 53)). apply roundHalfEven_mono.
      rewrite (pow2_inject 53) by lia.
      destruct (ilog2_spec x Hx) as [_ Hup].
      assert (Hb : pow2 (ilog2 x + 1) <= pow2 (53 + ex)).
      { apply pow2_le. unfold ex, exponent. lia. }
      assert (Hs : pow2 (53 + ex) * pow2 (- ex) == pow2 53).
      { rewrite <- pow2_add. now replace (53 + ex + - ex)%Z with 53%Z by lia. }
      rewrite <- Hs. apply Qmult_le_compat_r; [lra | apply Qlt_le_weak, pow2_pos].
    + apply Qle_trans with (pow2 (52 + ey)); [apply pow2_le; lia|].
      rewrite pow2_add.
      apply Qmult_le_compat_r; [|apply Qlt_le_weak, pow2_pos].
      rewrite <- (pow2_inject 52) by lia. apply inject_le.
      rewrite <- (roundHalfEven_inject (2 ^ 52)) at 1. apply roundHalfEven_mono.
      rewrite (pow2_inject 52) by lia.
      destruct (ilog2_spec y Hy) as [Hlo _].
      assert (Hey : ey = (ilog2 y - 52)%Z).
      { unfold ey, exponent in *. unfold ex, exponent in He, E. lia. }
      assert (Hs : pow2 (ilog2 y) * pow2 (- ey) == pow2 52).
      { rewrite <- pow2_add. now replace (ilog2 y + - ey)%Z with 52%Z by lia. }
      rewrite <- Hs. apply Qmult_le_compat_r; [lra | apply Qlt_le_weak, pow2_pos].
Qed.

Lemma binary64_mono x y : x <= y -> binary64 x <= binary64 y.
Proof.
  intros Hxy. unfold binary64.
  destruct (x ?= 0) eqn:Cx; destruct (y ?= 0) eqn:Cy;
    compared Cx; compared Cy;
    try (exfalso; lra).
  - lra.
  - now apply nearest_nonneg.
  - assert (H : 0 <= nearest (- x)) by (apply nearest_nonneg; lra). lra.
  - assert (H : nearest (- y) <= nearest (- x)) by (apply nearest_mono; lra). lra.
  - assert (H : 0 <= nearest (- x)) by (apply nearest_nonneg; lra).
    assert (H' : 0 <= nearest y) by (apply nearest_nonneg; lra). lra.
  - now apply nearest_mono.
Qed.

Lemma binary64_compat x y : x == y -> binary64 x == binary64 y.
Proof.
  intros E. apply Qle_antisym; apply binary64_mono; rewrite E; apply Qle_refl.
Qed.

Lemma times_mono a b c : 0 <= c -> a <= b -> times a c <= times b c.
Proof.
  intros Hc Hab. apply binary64_mono. now apply Qmult_le_compat_r.
Qed.

End Binary64Facts.

(** On the sample doubles, [number] and [times] are the kernel's
    primitive binary64 conversion and multiplication. *)
Lemma binary64_agrees_with_primitive_floats :
  forallb Hardware.agrees Hardware.samples = true.
Proof. vm_compute. reflexivity. Qed.

(* ------------------------------------------------------------------ *)
(** ** [Math.round] and the logger *)

Lemma Math_round_nearest (x : Q) :
  (inject_Z (Math_round x) - (1 # 2) <= x < inject_Z (Math_round x) + (1 # 2))%Q.
Proof.
  unfold Math_round.
  pose proof (Qfloor_le (x + (1 # 2))) as Hlo.
  pose proof (Qlt_floor (x + (1 # 2))) as Hhi.
  rewrite inject_Z_plus in Hhi. change (inject_Z 1) with 1%Q in Hhi.
  split; lra.
Qed.

Lemma Math_round_mono (x y : Q) : (x <= y)%Q -> (Math_round x <= Math_round y)%Z.
Proof. intros H. apply Qfloor_resp_le. lra. Qed.

Lemma percent_mono (f g : Q) : (f <= g)%Q -> (percent f <= percent g)%Z.
Proof.
  intros H. unfold percent. apply Math_round_mono.
  apply Binary64Facts.times_mono; [discriminate|].
  now apply Binary64Facts.binary64_mono.
Qed.

Lemma percent_range (fraction : Q) :
  (0 <= fraction <= 1)%Q -> (0 <= percent fraction <= 100)%Z.
Proof.
  intros [Hlo Hhi]. split.
  - change 0%Z with (percent 0). now apply percent_mono.
  - assert (E : percent 1 = 100%Z) by (vm_compute; reflexivity).
    rewrite <- E. now apply percent_mono.
Qed.

(** On a fraction that is a binary64 value, [percent] is
    [Math.round(fraction * 100)] as the code computes it. *)
Lemma percent_of_number (fraction : Q) :
  isNumber fraction -> percent fraction = Math_round (times fraction 100).
Proof.
  intros E. unfold percent, Math_round, times.
  apply Qfloor_comp. apply Qplus_comp; [|reflexivity].
  apply Binary64Facts.binary64_compat.
  apply Qmult_comp; [exact E | reflexivity].
Qed.

(** C6. For a status event whose fraction lies in [0,1], the logger sets
    [progress] to [Math.round(fraction * 100)], the product being the
    binary64 one: an integer within 0..100 and nearest to that product,
    when the phase is ["recognizing text"]; it leaves [progress] as it
    was for any other phase; nothing else in the snapshot changes. *)
Theorem logger_normalizes_progress (st : State) (m : LoggerMessage) :
  (0 <= m_progress m <= 1)%Q ->
  (status m = "recognizing text" ->
     progress (logger (Some m) st)
       = Math_round (times (number (m_progress m)) 100) /\
     (isNumber (m_progress m) ->
        progress (logger (Some m) st) = Math_round (times (m_progress m) 100)) /\
     (0 <= progress (logger (Some m) st) <= 100)%Z /\
     (inject_Z (progress (logger (Some m) st)) - (1 # 2)
        <= times (number (m_progress m)) 100
        < inject_Z (progress (logger (Some m) st)) + (1 # 2))%Q) /\
  (status m <> "recognizing text" ->
     progress (logger (Some m) st) = progress st) /\
  loading (logger (Some m) st) = loading st /\
  ocr (logger (Some m) st) = ocr st /\
  error (logger (Some m) st) = error st.
Proof.
  intros Hrange. unfold logger.
  destruct (String.eqb_spec (status m) "recognizing text") as [Heq|Hne]; simpl.
  - split; [intros _ | split; [intros Hne; contradiction | auto]].
    split; [reflexivity | split; [|split]].
    + apply percent_of_number.
    + apply (percent_range _ Hrange).
    + apply Math_round_nearest.
  - split; [intros Heq; contradiction | auto].
Qed.

Lemma logger_normalizes_progress_witness :
  (0 <= 15 # 1000 <= 1)%Q /\
  progress (logger (Sample.recognizingAt (15 # 1000)) mount) = 2%Z /\
  progress (logger (Some {| status := "initializing api"; m_progress := 1 |})
                   (setProgress 37 mount)) = 37%Z.
Proof.
  assert (H15 : (0 <= 15 # 1000 <= 1)%Q) by (split; discriminate).
  assert (H1 : (0 <= 1 <= 1)%Q) by (split; discriminate).
  assert (E : Math_round (times (number (15 # 1000)) 100) = 2%Z)
    by (vm_compute; reflexivity).
  split; [exact H15 | split].
  - rewrite <- E.
    exact (proj1 (proj1 (logger_normalizes_progress mount
             {| status := "recognizing text"; m_progress := 15 # 1000 |} H15)
             eq_refl)).
  - apply (logger_normalizes_progress (setProgress 37 mount)
             {| status := "initializing api"; m_progress := 1 |} H1).
    discriminate.
Defined.

(* ------------------------------------------------------------------ *)
(** ** Steps of [App] *)

Lemma run_app st evs1 evs2 : run st (evs1 ++ evs2) = run (run st evs1) evs2.
Proof. apply fold_left_app. Qed.

Lemma run_cons st ev evs : run st (ev :: evs) = run (step st ev) evs.
Proof. reflexivity. Qed.

Lemma image_fresh st f :
  image st <> Some f -> ObjectURL.img_eqb (image st) (Some f) = false.
Proof.
  intros Hne. destruct (ObjectURL.img_eqb (image st) (Some f)) eqn:E; [|reflexivity].
  apply ObjectURLFacts.img_eqb_eq in E. contradiction.
Qed.

(** A submission of a file other than the current one starts [read]. *)
Lemma step_submit st f :
  image st <> Some f ->
  step st (ImageChange (Some f))
  = read_start f
      (withObjectURL (ObjectURL.useObjectURL (Some f) (hook st, store st))
                    (setImage (Some f) st)).
Proof.
  intros Hne. simpl. now rewrite (image_fresh st f Hne).
Qed.

(** The settlement of an in-flight [read] resumes it. *)
Lemma step_settle st job r :
  pending job st = true ->
  step st (RecognizeSettle job r)
  = read_continue r
      (setReads (filter (fun j => negb (Nat.eqb j job)) (reads st)) st).
Proof. intros Hp. simpl. now rewrite Hp. Qed.

Lemma pending_app_last job l n :
  existsb (Nat.eqb job) (l ++ [n]) = existsb (Nat.eqb job) l || Nat.eqb job n.
Proof. rewrite existsb_app. simpl. now rewrite orb_false_r. Qed.

Ltac step_cases st ev :=
  destruct ev as [ok | [f|] | job [m|] | e | job r]; simpl;
  [ unfold init_continue; destruct (init st) eqn:Epc, ok
  | unfold onImageChange, image_effects;
    destruct (ObjectURL.img_eqb (image st) (Some f)) eqn:Eimg
  |
  | unfold logger; destruct (String.eqb (status m) "recognizing text") eqn:Ephase
  |
  |
  | destruct (pending job st) eqn:Epend; [destruct r|] ];
  simpl.

(** Only the logger, on a ["recognizing text"] event, writes [progress]. *)
Lemma step_progress st ev :
  recognizing ev = false -> progress (step st ev) = progress st.
Proof.
  intros Hq. step_cases st ev; try reflexivity.
  simpl in Hq. congruence.
Qed.

Lemma run_progress evs : forall st,
  existsb recognizing evs = false -> progress (run st evs) = progress st.
Proof.
  induction evs as [|ev evs IH]; intros st Hq; [reflexivity|].
  simpl in Hq. apply orb_false_elim in Hq as [Hev Hevs].
  rewrite run_cons, (IH _ Hevs). now apply step_progress.
Qed.

(** Bootstrap and status events leave the rest of the session alone. *)
Lemma step_quiet st ev :
  quiet ev = true ->
  loading (step st ev) = loading st /\ ocr (step st ev) = ocr st /\
  error (step st ev) = error st /\ image (step st ev) = image st /\
  reads (step st ev) = reads st /\ jobs (step st ev) = jobs st.
Proof.
  intros Hq. step_cases st ev; try discriminate; auto 10.
Qed.

Lemma run_quiet evs : forall st,
  forallb quiet evs = true ->
  loading (run st evs) = loading st /\ ocr (run st evs) = ocr st /\
  error (run st evs) = error st /\ image (run st evs) = image st /\
  reads (run st evs) = reads st /\ jobs (run st evs) = jobs st.
Proof.
  induction evs as [|ev evs IH]; intros st Hq; [auto 10|].
  simpl in Hq. apply andb_prop in Hq as [Hev Hevs].
  rewrite run_cons.
  destruct (IH (step st ev) Hevs) as (-> & -> & -> & -> & -> & ->).
  now apply step_quiet.
Qed.

(** [error] is written by the error handler and by a successful [read]. *)
Lemma step_error st ev :
  writes_error st ev = false -> error (step st ev) = error st.
Proof.
  intros Hw. step_cases st ev; try reflexivity; simpl in Hw; congruence.
Qed.

(** [loading] is written when [read] starts and when it resumes. *)
Lemma step_loading st ev :
  writes_loading st ev = false -> loading (step st ev) = loading st.
Proof.
  intros Hw. step_cases st ev; try reflexivity; simpl in Hw;
    try congruence.
  rewrite Eimg in Hw. discriminate.
Qed.

Lemma step_loading_tracked st ev :
  loading_tracked st -> loading_tracked (step st ev).
Proof.
  unfold loading_tracked, current, pending. intros Hi.
  step_cases st ev; try exact Hi; try discriminate.
  intros _. exists (jobs st). split; [reflexivity|].
  rewrite pending_app_last, Nat.eqb_refl. apply orb_true_r.
Qed.

Lemma run_loading_tracked evs : forall st,
  loading_tracked st -> loading_tracked (run st evs).
Proof.
  induction evs as [|ev evs IH]; intros st Hi; [exact Hi|].
  rewrite run_cons. apply IH. now apply step_loading_tracked.
Qed.

(** The hook inside [App] is rendered with [image]. *)
Lemma step_object_url st ev :
  ObjectURL.inv (image st) (hook st, store st) ->
  ObjectURL.inv (image (step st ev)) (hook (step st ev), store (step st ev)).
Proof.
  intros Hi. step_cases st ev; try exact Hi.
  rewrite <- surjective_pairing.
  eapply ObjectURLFacts.useObjectURL_inv; eauto.
Qed.

Lemma run_object_url evs : forall st,
  ObjectURL.inv (image st) (hook st, store st) ->
  ObjectURL.inv (image (run st evs)) (hook (run st evs), store (run st evs)).
Proof.
  induction evs as [|ev evs IH]; intros st Hi; [exact Hi|].
  rewrite run_cons. apply IH. now apply step_object_url.
Qed.

(** Across any run of [App], at most one object URL is live. *)
Lemma app_single_live_handle evs :
  ObjectURL.handles (hook (run mount evs), store (run mount evs)) <= 1.
Proof.
  rewrite (ObjectURLFacts.inv_handles (image (run mount evs))).
  - destruct (image (run mount evs)); lia.
  - apply run_object_url. repeat split; reflexivity.
Qed.

(** A failed bootstrap is never retried. *)
Lemma step_init_rejected st ev :
  init st = InitRejected -> init (step st ev) = InitRejected.
Proof.
  intros Hi. step_cases st ev; try exact Hi; congruence.
Qed.

Lemma run_init_rejected evs : forall st,
  init st = InitRejected -> init (run st evs) = InitRejected.
Proof.
  induction evs as [|ev evs IH]; intros st Hi; [exact Hi|].
  rewrite run_cons. apply IH. now apply step_init_rejected.
Qed.

(* ------------------------------------------------------------------ *)
(** ** Sessions and their settlement *)

Lemma superseded_pending job st : superseded job st = true -> pending job st = true.
Proof. unfold superseded. intros H. now apply andb_prop in H. Qed.

Lemma settle_fields st job r :
  pending job st = true ->
  progress (step st (RecognizeSettle job r)) = progress st /\
  loading (step st (RecognizeSettle job r)) = false /\
  ocr (step st (RecognizeSettle job r))
    = match r with Resolved data => Some data | Rejected _ => ocr st end /\
  error (step st (RecognizeSettle job r))
    = match r with Resolved _ => None | Rejected _ => error st end.
Proof.
  intros Hp. rewrite (step_settle st job r Hp). destruct r; simpl; auto.
Qed.

Lemma submit_fields st f :
  image st <> Some f ->
  snapshot (step st (ImageChange (Some f))) = (true, progress st, ocr st, error st) /\
  calls (step st (ImageChange (Some f))) = calls st ++ [Recognize f] /\
  reads (step st (ImageChange (Some f))) = reads st ++ [jobs st] /\
  jobs (step st (ImageChange (Some f))) = S (jobs st) /\
  init (step st (ImageChange (Some f))) = init st.
Proof.
  intros Hne. rewrite (step_submit st f Hne). simpl. auto.
Qed.

(** C1 (amended). The settlement of a superseded session is applied to the
    shared state like any other: it never alters [progress]; a failure
    leaves [result] and [error] as they were and sets [loading] to false;
    a success stores its data in [result], clears [error] and sets
    [loading] to false. *)
Theorem superseded_settlement_is_applied (st : State) (job : nat) (r : Outcome) :
  superseded job st = true ->
  progress (step st (RecognizeSettle job r)) = progress st /\
  loading (step st (RecognizeSettle job r)) = false /\
  ocr (step st (RecognizeSettle job r))
    = match r with Resolved data => Some data | Rejected _ => ocr st end /\
  error (step st (RecognizeSettle job r))
    = match r with Resolved _ => None | Rejected _ => error st end.
Proof.
  intros Hs. apply settle_fields. now apply superseded_pending.
Qed.

Lemma superseded_settlement_is_applied_witness :
  superseded 0 Sample.overlapping = true /\
  progress (step Sample.overlapping (RecognizeSettle 0 (Resolved Sample.pageA))) = 0%Z /\
  loading (step Sample.overlapping (RecognizeSettle 0 (Resolved Sample.pageA))) = false /\
  ocr (step Sample.overlapping (RecognizeSettle 0 (Resolved Sample.pageA)))
    = Some Sample.pageA /\
  error (step Sample.overlapping (RecognizeSettle 0 (Resolved Sample.pageA))) = None.
Proof.
  assert (Hs : superseded 0 Sample.overlapping = true) by (vm_compute; reflexivity).
  split; [exact Hs|].
  destruct (superseded_settlement_is_applied Sample.overlapping 0
              (Resolved Sample.pageA) Hs) as (-> & -> & -> & ->).
  repeat split; vm_compute; reflexivity.
Defined.

(** C1 fails as stated: image 2 is submitted while image 1 is being read;
    when the superseded read of image 1 succeeds, its page becomes the
    result and [loading] drops although image 2 is still in flight. *)
Lemma superseded_success_is_committed :
  superseded 0 Sample.overlapping = true /\
  pending 1 Sample.overlapping = true /\
  snapshot Sample.overlapping = (true, 0%Z, None, None) /\
  snapshot (step Sample.overlapping (RecognizeSettle 0 (Resolved Sample.pageA)))
    = (false, 0%Z, Some Sample.pageA, None).
Proof. repeat split; vm_compute; reflexivity. Qed.

(** C2 (amended). A rejected bootstrap is recorded nowhere in the
    snapshot and is never retried; every later submission of a new image
    still calls [worker.recognize] on it and sets [loading], leaving
    [error], [result] and [progress] as they were. *)
Theorem rejected_bootstrap_does_not_gate_recognition
        (st0 : State) (evs : list Event) (f : File) :
  init st0 <> InitDone ->
  image (afterRejectedBootstrap st0 evs) <> Some f ->
  snapshot (step st0 (InitSettle false)) = snapshot st0 /\
  init (afterRejectedBootstrap st0 evs) = InitRejected /\
  calls (step (afterRejectedBootstrap st0 evs) (ImageChange (Some f)))
    = calls (afterRejectedBootstrap st0 evs) ++ [Recognize f] /\
  pending (jobs (afterRejectedBootstrap st0 evs))
          (step (afterRejectedBootstrap st0 evs) (ImageChange (Some f))) = true /\
  snapshot (step (afterRejectedBootstrap st0 evs) (ImageChange (Some f)))
    = (true, progress (afterRejectedBootstrap st0 evs),
       ocr (afterRejectedBootstrap st0 evs), error (afterRejectedBootstrap st0 evs)).
Proof.
  intros Hpc Hne.
  destruct (submit_fields _ f Hne) as (Hsnap & Hcalls & Hreads & _).
  split; [|split; [|split; [exact Hcalls | split; [|exact Hsnap]]]].
  - simpl. unfold init_continue. destruct (init st0); reflexivity.
  - apply run_init_rejected. simpl. unfold init_continue.
    destruct (init st0) eqn:E; try reflexivity; try exact E. congruence.
  - unfold pending. rewrite Hreads, pending_app_last, Nat.eqb_refl.
    apply orb_true_r.
Qed.

Lemma rejected_bootstrap_does_not_gate_recognition_witness :
  init mount <> InitDone /\
  image (afterRejectedBootstrap mount [Status 0 None]) <> Some 1 /\
  init (afterRejectedBootstrap mount [Status 0 None]) = InitRejected /\
  calls (step (afterRejectedBootstrap mount [Status 0 None]) (ImageChange (Some 1)))
    = [Load; Recognize 1].
Proof.
  assert (Hpc : init mount <> InitDone) by (vm_compute; discriminate).
  assert (Hne : image (afterRejectedBootstrap mount [Status 0 None]) <> Some 1)
    by (vm_compute; discriminate).
  split; [exact Hpc | split; [exact Hne |]].
  destruct (rejected_bootstrap_does_not_gate_recognition
              mount [Status 0 None] 1 Hpc Hne) as (_ & Hinit & Hcalls & _).
  split; [exact Hinit | exact Hcalls].
Defined.

(** C2 fails as stated: [worker.load()] rejects, image 1 is submitted, and
    [worker.recognize] is called all the same; when that call rejects, the
    committed state carries no error. *)
Lemma recognition_attempted_after_rejected_bootstrap :
  init Sample.afterFailedBootstrap = InitRejected /\
  calls Sample.afterFailedBootstrap = [Load; Recognize 1] /\
  snapshot Sample.afterFailedBootstrap = (true, 0%Z, None, None) /\
  snapshot (step Sample.afterFailedBootstrap (RecognizeSettle 0 (Rejected Sample.fault)))
    = (false, 0%Z, None, None).
Proof. repeat split; vm_compute; reflexivity. Qed.

(** C3 (amended). When the recognition call of an in-flight session
    rejects, the rejection itself only sets [loading] to false: [error]
    and [result] keep their values.  [error] holds the fault only when the
    engine has reported it to the error handler as well, and [result]
    still holds whatever an earlier recognition stored. *)
Theorem rejection_only_clears_loading (st : State) (job : nat) (reason : Error) :
  pending job st = true ->
  snapshot (step st (RecognizeSettle job (Rejected reason)))
    = (false, progress st, ocr st, error st) /\
  snapshot (run st [EngineError reason; RecognizeSettle job (Rejected reason)])
    = (false, progress st, ocr st, Some reason).
Proof.
  intros Hp. split.
  - destruct (settle_fields st job (Rejected reason) Hp) as (Hpr & Hl & Ho & He).
    unfold snapshot. now rewrite Hpr, Hl, Ho, He.
  - assert (Hp' : pending job (step st (EngineError reason)) = true) by exact Hp.
    destruct (settle_fields _ job (Rejected reason) Hp') as (Hpr & Hl & Ho & He).
    change (run st [EngineError reason; RecognizeSettle job (Rejected reason)])
      with (step (step st (EngineError reason))
                 (RecognizeSettle job (Rejected reason))).
    unfold snapshot. now rewrite Hpr, Hl, Ho, He.
Qed.

Lemma rejection_only_clears_loading_witness :
  pending 1 (step Sample.afterSuccess (ImageChange (Some 2))) = true /\
  snapshot (step (step Sample.afterSuccess (ImageChange (Some 2)))
                 (RecognizeSettle 1 (Rejected Sample.fault)))
    = (false, 100%Z, Some Sample.pageA, None).
Proof.
  assert (Hp : pending 1 (step Sample.afterSuccess (ImageChange (Some 2))) = true)
    by (vm_compute; reflexivity).
  split; [exact Hp|].
  rewrite (proj1 (rejection_only_clears_loading
                    (step Sample.afterSuccess (ImageChange (Some 2))) 1
                    Sample.fault Hp)).
  vm_compute. reflexivity.
Defined.

(** C3 fails as stated: after image 1 was read, the rejected read of
    image 2 leaves the page of image 1 as [result]; and a rejection the
    engine does not also report to the error handler leaves [error] null. *)
Lemma rejection_keeps_previous_result :
  current Sample.afterSuccessThenFault = Some 1 /\
  snapshot Sample.afterSuccessThenFault
    = (false, 100%Z, Some Sample.pageA, Some Sample.fault) /\
  snapshot (run mount [ImageChange (Some 1); RecognizeSettle 0 (Rejected Sample.fault)])
    = (false, 0%Z, None, None).
Proof. repeat split; vm_compute; reflexivity. Qed.

(* ------------------------------------------------------------------ *)
(** ** [loading], [error] and [result] *)

Lemma mount_loading_tracked : loading_tracked mount.
Proof. intros H. discriminate. Qed.

(** C4 (amended). In every state [App] reaches: submitting a new image
    sets [loading] to true; the settlement of any in-flight session,
    superseded or not, sets it to false; no other event writes it; and it
    is never left true once the session of the last submission has
    settled. *)
Theorem loading_cleared_by_every_settlement
        (evs : list Event) (f : File) (job : nat) (r : Outcome) (ev : Event) :
  (image (run mount evs) <> Some f ->
     loading (step (run mount evs) (ImageChange (Some f))) = true) /\
  (pending job (run mount evs) = true ->
     loading (step (run mount evs) (RecognizeSettle job r)) = false) /\
  (writes_loading (run mount evs) ev = false ->
     loading (step (run mount evs) ev) = loading (run mount evs)) /\
  match current (run mount evs) with
  | Some last => pending last (run mount evs) = false -> loading (run mount evs) = false
  | None => loading (run mount evs) = false
  end.
Proof.
  split; [|split; [|split]].
  - intros Hne. destruct (submit_fields _ f Hne) as (Hsnap & _).
    now inversion Hsnap.
  - intros Hp. apply (settle_fields _ job r Hp).
  - apply step_loading.
  - pose proof (run_loading_tracked evs mount mount_loading_tracked) as Ht.
    unfold loading_tracked in Ht.
    destruct (loading (run mount evs)).
    + destruct (Ht eq_refl) as (j & -> & Hj). intros Hn. congruence.
    + now destruct (current (run mount evs)).
Qed.

Lemma loading_cleared_by_every_settlement_witness :
  image (run mount Sample.bootstrapped) <> Some 1 /\
  loading (step (run mount Sample.bootstrapped) (ImageChange (Some 1))) = true /\
  pending 0 (run mount (Sample.bootstrapped ++ [ImageChange (Some 1)])) = true /\
  loading (step (run mount (Sample.bootstrapped ++ [ImageChange (Some 1)]))
                (RecognizeSettle 0 (Rejected Sample.fault))) = false /\
  loading (run mount (Sample.bootstrapped ++
                      [ImageChange (Some 1); RecognizeSettle 0 (Resolved Sample.pageA)]))
    = false.
Proof.
  assert (Hne : image (run mount Sample.bootstrapped) <> Some 1)
    by (vm_compute; discriminate).
  assert (Hp : pending 0 (run mount (Sample.bootstrapped ++ [ImageChange (Some 1)]))
               = true) by (vm_compute; reflexivity).
  split; [exact Hne | split; [| split; [exact Hp | split]]].
  - exact (proj1 (loading_cleared_by_every_settlement Sample.bootstrapped 1 0
                    (Rejected Sample.fault) (InitSettle true)) Hne).
  - exact (proj1 (proj2 (loading_cleared_by_every_settlement
                           (Sample.bootstrapped ++ [ImageChange (Some 1)]) 1 0
                           (Rejected Sample.fault) (InitSettle true))) Hp).
  - vm_compute. reflexivity.
Defined.

(** C4 fails as stated: image 2 is submitted while image 1 is being read;
    the completion of the superseded read sets [loading] to false while
    the read of image 2 is still running. *)
Lemma superseded_completion_clears_loading :
  superseded 0 Sample.overlapping = true /\
  loading Sample.overlapping = true /\
  loading (step Sample.overlapping (RecognizeSettle 0 (Rejected Sample.fault))) = false /\
  current (step Sample.overlapping (RecognizeSettle 0 (Rejected Sample.fault))) = Some 1 /\
  pending 1 (step Sample.overlapping (RecognizeSettle 0 (Rejected Sample.fault))) = true.
Proof. repeat split; vm_compute; reflexivity. Qed.

(** C5 (amended). Committing a result clears the error: after a
    successful settlement [error] is null and [result] is the new page.
    Committing an error does not clear the result: the error handler
    stores the fault and leaves [result] as it was, and so does a
    rejected settlement. *)
Theorem result_commit_clears_error_only
        (st : State) (job : nat) (data : Page) (e : Error) :
  pending job st = true ->
  (error (step st (RecognizeSettle job (Resolved data))) = None /\
   ocr (step st (RecognizeSettle job (Resolved data))) = Some data) /\
  (error (step st (EngineError e)) = Some e /\
   ocr (step st (EngineError e)) = ocr st) /\
  (error (step st (RecognizeSettle job (Rejected e))) = error st /\
   ocr (step st (RecognizeSettle job (Rejected e))) = ocr st).
Proof.
  intros Hp.
  destruct (settle_fields st job (Resolved data) Hp) as (_ & _ & Ho & He).
  destruct (settle_fields st job (Rejected e) Hp) as (_ & _ & Ho' & He').
  repeat split; assumption || reflexivity.
Qed.

Lemma result_commit_clears_error_only_witness :
  pending 0 Sample.overlapping = true /\
  error (step Sample.overlapping (RecognizeSettle 0 (Resolved Sample.pageB))) = None /\
  ocr (step Sample.overlapping (RecognizeSettle 0 (Resolved Sample.pageB)))
    = Some Sample.pageB.
Proof.
  assert (Hp : pending 0 Sample.overlapping = true) by (vm_compute; reflexivity).
  split; [exact Hp|].
  exact (proj1 (result_commit_clears_error_only Sample.overlapping 0
                  Sample.pageB Sample.fault Hp)).
Defined.

(** C5 fails as stated: image 1 is read successfully, then image 2 is
    submitted and the engine rejects it; no session is in flight any more
    and both [error] and [result] are non-null. *)
Lemma error_and_result_both_set :
  reads Sample.afterSuccessThenFault = [] /\
  loading Sample.afterSuccessThenFault = false /\
  error Sample.afterSuccessThenFault = Some Sample.fault /\
  ocr Sample.afterSuccessThenFault = Some Sample.pageA.
Proof. repeat split; vm_compute; reflexivity. Qed.

(** C7 (amended). Submitting an image does not touch [error]: the
    previous error stays in place while the new session runs.  Only the
    error handler and the successful settlement of an in-flight session
    write [error], the latter setting it to null. *)
Theorem submission_keeps_error
        (st : State) (file : option File) (ev : Event) (job : nat) (data : Page) :
  error (step st (ImageChange file)) = error st /\
  (writes_error st ev = false -> error (step st ev) = error st) /\
  (pending job st = true ->
     error (step st (RecognizeSettle job (Resolved data))) = None).
Proof.
  split; [|split].
  - now apply step_error.
  - apply step_error.
  - intros Hp. apply (settle_fields st job (Resolved data) Hp).
Qed.

Lemma submission_keeps_error_witness :
  pending 1 (step Sample.afterFault (ImageChange (Some 2))) = true /\
  error (step Sample.afterFault (ImageChange (Some 2))) = Some Sample.fault /\
  error (step (step Sample.afterFault (ImageChange (Some 2)))
              (RecognizeSettle 1 (Resolved Sample.pageB))) = None.
Proof.
  assert (Hp : pending 1 (step Sample.afterFault (ImageChange (Some 2))) = true)
    by (vm_compute; reflexivity).
  split; [exact Hp | split].
  - rewrite (proj1 (submission_keeps_error Sample.afterFault (Some 2)
                      (InitSettle true) 0 Sample.pageB)).
    vm_compute. reflexivity.
  - exact (proj2 (proj2 (submission_keeps_error
                           (step Sample.afterFault (ImageChange (Some 2))) None
                           (InitSettle true) 1 Sample.pageB)) Hp).
Defined.

(** C7 fails as stated: with the error of image 1 on display, image 2 is
    submitted; its session has started and is still in flight, and
    [error] is still the old fault. *)
Lemma new_submission_leaves_error :
  error Sample.afterFault = Some Sample.fault /\
  error (step Sample.afterFault (ImageChange (Some 2))) = Some Sample.fault /\
  loading (step Sample.afterFault (ImageChange (Some 2))) = true /\
  pending 1 (step Sample.afterFault (ImageChange (Some 2))) = true.
Proof. repeat split; vm_compute; reflexivity. Qed.

(* ------------------------------------------------------------------ *)
(** ** Display handles *)

(** C8. Whatever sequence of images (files or [null]) the hook is rendered
    with, every configuration it goes through, including the one between
    the cleanup of the previous effect and the next effect body, has at
    most one live object URL; after the last render there is exactly one
    when the bound image is a file and none when it is [null]; unmounting
    leaves none.  The same bound holds for the hook inside [App] after any
    sequence of events. *)
Theorem useObjectURL_single_live_handle (imgs : list (option File)) (evs : list Event) :
  Forall (fun c => ObjectURL.handles c <= 1)
         (ObjectURL.history imgs (ObjectURL.initial, ObjectURL.empty)) /\
  ObjectURL.handles (ObjectURL.renders imgs (ObjectURL.initial, ObjectURL.empty))
    = match ObjectURL.bound None imgs with Some _ => 1 | None => 0 end /\
  ObjectURL.handles
    (ObjectURL.unmount (ObjectURL.renders imgs (ObjectURL.initial, ObjectURL.empty)))
    = 0 /\
  ObjectURL.handles (hook (run mount evs), store (run mount evs)) <= 1.
Proof.
  pose proof (ObjectURLFacts.renders_inv imgs None _ ObjectURLFacts.inv_initial) as Hfinal.
  split; [|split; [|split]].
  - exact (ObjectURLFacts.history_bounded imgs None _ ObjectURLFacts.inv_initial).
  - exact (ObjectURLFacts.inv_handles _ _ Hfinal).
  - exact (ObjectURLFacts.unmount_releases _ _ Hfinal).
  - apply app_single_live_handle.
Qed.

(* ------------------------------------------------------------------ *)
(** ** Scenarios and [progress] *)

(** C9 (amended). A first submission whose recognition succeeds with
    confidence 92.5, 10 words and 2 lines, with bootstrap and status
    events before and during it and no other submission, commits
    [{loading: false, progress: 100, result: data, error: null}], [data]
    being the page the engine returned, provided the last status event of
    the engine is a ["recognizing text"] event with fraction 1. *)
Theorem first_submission_success
        (pre mid : list Event) (f : File) (data : Page) :
  forallb quiet pre = true ->
  forallb quiet mid = true ->
  (confidence data == 185 # 2)%Q ->
  List.length (words data) = 10 ->
  List.length (lines data) = 2 ->
  snapshot (run mount (firstSubmission pre f mid 1 (Resolved data)))
    = (false, 100%Z, Some data, None) /\
  exists result,
    ocr (run mount (firstSubmission pre f mid 1 (Resolved data))) = Some result /\
    (confidence result == 185 # 2)%Q /\
    List.length (words result) = 10 /\
    List.length (lines result) = 2.
Proof.
  intros Hpre Hmid Hc Hw Hl.
  assert (Hsnap : snapshot (run mount (firstSubmission pre f mid 1 (Resolved data)))
                  = (false, 100%Z, Some data, None)).
  { unfold firstSubmission. rewrite !run_app.
    destruct (run_quiet pre mount Hpre) as (_ & _ & _ & Hi0 & Hr0 & Hj0).
    set (s0 := run mount pre) in *.
    assert (Hne : image s0 <> Some f) by (rewrite Hi0; discriminate).
    change (run s0 [ImageChange (Some f)]) with (step s0 (ImageChange (Some f))).
    destruct (submit_fields s0 f Hne) as (_ & _ & Hr1 & _).
    rewrite Hr0, Hj0 in Hr1. change (reads mount ++ [jobs mount]) with [0] in Hr1.
    set (s1 := step s0 (ImageChange (Some f))) in *.
    destruct (run_quiet mid s1 Hmid) as (_ & _ & _ & _ & Hr2 & _).
    rewrite Hr1 in Hr2.
    set (s2 := run s1 mid) in *.
    set (done := Status 0 (Some {| status := "recognizing text"; m_progress := 1 |})).
    change (run s2 [done; RecognizeSettle 0 (Resolved data)])
      with (step (step s2 done) (RecognizeSettle 0 (Resolved data))).
    assert (Hp : pending 0 (step s2 done) = true).
    { unfold pending. change (reads (step s2 done)) with (reads s2).
      now rewrite Hr2. }
    destruct (settle_fields _ 0 (Resolved data) Hp) as (Hpr & Hlo & Ho & He).
    unfold snapshot. rewrite Hpr, Hlo, Ho, He.
    assert (Hone : percent 1 = 100%Z) by (vm_compute; reflexivity).
    change (progress (step s2 done)) with (percent 1). now rewrite Hone. }
  split; [exact Hsnap|].
  exists data. repeat split; try assumption.
  now inversion Hsnap.
Qed.

Lemma first_submission_success_witness :
  forallb quiet Sample.bootstrapped = true /\
  forallb quiet [Status 0 (Sample.recognizingAt (1 # 2))] = true /\
  (confidence Sample.pageA == 185 # 2)%Q /\
  List.length (words Sample.pageA) = 10 /\
  List.length (lines Sample.pageA) = 2 /\
  snapshot (run mount (firstSubmission Sample.bootstrapped 1
                         [Status 0 (Sample.recognizingAt (1 # 2))] 1
                         (Resolved Sample.pageA)))
    = (false, 100%Z, Some Sample.pageA, None).
Proof.
  assert (Hc : (confidence Sample.pageA == 185 # 2)%Q) by reflexivity.
  assert (Hpre : forallb quiet Sample.bootstrapped = true)
    by (vm_compute; reflexivity).
  assert (Hmid : forallb quiet [Status 0 (Sample.recognizingAt (1 # 2))] = true)
    by (vm_compute; reflexivity).
  assert (Hw : List.length (words Sample.pageA) = 10) by (vm_compute; reflexivity).
  assert (Hl : List.length (lines Sample.pageA) = 2) by (vm_compute; reflexivity).
  repeat (split; [first [exact Hpre | exact Hmid | exact Hc | exact Hw | exact Hl]|]).
  exact (proj1 (first_submission_success Sample.bootstrapped
                  [Status 0 (Sample.recognizingAt (1 # 2))] 1 Sample.pageA
                  Hpre Hmid Hc Hw Hl)).
Defined.

(** C9 fails as stated: the same submission commits [progress = 0] when
    the engine reports no ["recognizing text"] event, and [progress = 90]
    when the last one it reports has fraction 0.9; nothing sets
    [progress] to 100 on success. *)
Lemma success_does_not_complete_progress :
  (confidence Sample.pageA == 185 # 2)%Q /\
  List.length (words Sample.pageA) = 10 /\
  List.length (lines Sample.pageA) = 2 /\
  snapshot (run mount (Sample.bootstrapped ++
                       [ImageChange (Some 1); RecognizeSettle 0 (Resolved Sample.pageA)]))
    = (false, 0%Z, Some Sample.pageA, None) /\
  snapshot (run mount (firstSubmission Sample.bootstrapped 1 [] (9 # 10)
                         (Resolved Sample.pageA)))
    = (false, 90%Z, Some Sample.pageA, None).
Proof. repeat split; vm_compute; reflexivity. Qed.

(** C10 (amended). Submitting an image does not reset [progress]: the
    value persists, unchanged, through every later event until the next
    ["recognizing text"] status event arrives, whichever session that
    event belongs to. *)
Theorem submission_keeps_progress
        (st : State) (file : option File) (evs : list Event) :
  existsb recognizing evs = false ->
  progress (step st (ImageChange file)) = progress st /\
  progress (run (step st (ImageChange file)) evs) = progress st.
Proof.
  intros Hq.
  assert (Hs : progress (step st (ImageChange file)) = progress st)
    by now apply step_progress.
  split; [exact Hs|]. now rewrite (run_progress evs _ Hq).
Qed.

Lemma submission_keeps_progress_witness :
  existsb recognizing Sample.failingRead = false /\
  progress Sample.afterSuccess = 100%Z /\
  progress (run (step Sample.afterSuccess (ImageChange (Some 2))) Sample.failingRead)
    = progress Sample.afterSuccess.
Proof.
  assert (Hq : existsb recognizing Sample.failingRead = false)
    by (vm_compute; reflexivity).
  split; [exact Hq | split; [vm_compute; reflexivity|]].
  exact (proj2 (submission_keeps_progress Sample.afterSuccess (Some 2)
                  Sample.failingRead Hq)).
Defined.

(** C10 fails as stated: image 1 is 30% read when image 2 is submitted;
    the next status event of the superseded session of image 1 moves
    [progress] to 60 before the session of image 2 has reported anything. *)
Lemma earlier_session_moves_progress :
  current Sample.overlappingAt30 = Some 1 /\
  pending 0 Sample.overlappingAt30 = true /\
  progress Sample.overlappingAt30 = 30%Z /\
  progress (step Sample.overlappingAt30 (Status 0 (Sample.recognizingAt (6 # 10))))
    = 60%Z.
Proof. repeat split; vm_compute; reflexivity. Qed.

(* ------------------------------------------------------------------ *)
(** ** The worker calls of a run *)

Lemma bootstrap_app cs c :
  bootstrap (cs ++ [c]) = bootstrap cs ++ (if isRecognize c then [] else [c]).
Proof.
  unfold bootstrap. rewrite filter_app. simpl. now destruct (isRecognize c).
Qed.

Lemma recognized_app cs c :
  recognized (cs ++ [c])
  = recognized cs ++ match c with Recognize f => [f] | _ => [] end.
Proof.
  unfold recognized. rewrite flat_map_app. simpl. now rewrite app_nil_r.
Qed.

Lemma step_bootstrap_ordered st ev :
  bootstrap_ordered st -> bootstrap_ordered (step st ev).
Proof.
  intros (n & Hn & Hc). unfold bootstrap_ordered.
  step_cases st ev; simpl in Hn;
    first
      [ exists n; split; [exact Hn || (simpl; lia) | exact Hc]
      | exists n; rewrite Epc; split; [exact Hn | exact Hc]
      | subst n; eexists; split;
        [reflexivity | rewrite bootstrap_app, Hc; reflexivity]
      | exists n; split;
        [exact Hn | rewrite bootstrap_app, Hc; simpl; apply app_nil_r] ].
Qed.

Lemma run_bootstrap_ordered evs : forall st,
  bootstrap_ordered st -> bootstrap_ordered (run st evs).
Proof.
  induction evs as [|ev evs IH]; intros st Hi; [exact Hi|].
  rewrite run_cons. apply IH. now apply step_bootstrap_ordered.
Qed.

(** X1. In every run, the bootstrap calls made on the worker are the
    first [n] of [load(); loadLanguage("eng"); initialize("eng")], in
    that order and each at most once, where [n] is 1 while [load] is
    awaited, 2 while [loadLanguage] is awaited, 3 from then on, and 1 to
    3 once a step has rejected. *)
Theorem bootstrap_calls_in_order (evs : list Event) :
  exists n,
    1 <= n <= 3 /\
    stage (init (run mount evs)) n /\
    bootstrap (calls (run mount evs)) = firstn n bootstrapCalls.
Proof.
  assert (H0 : bootstrap_ordered mount) by (exists 1; split; reflexivity).
  destruct (run_bootstrap_ordered evs mount H0) as (n & Hn & Hc).
  exists n. split; [|split; assumption].
  unfold stage in Hn. destruct (init (run mount evs)); lia.
Qed.

Lemma last_cons {A} (l : list A) (x d : A) : last (x :: l) d = last l x.
Proof.
  revert x d. induction l as [|y l IH]; intros x d; [reflexivity|].
  change (last (x :: y :: l) d) with (last (y :: l) d).
  now rewrite (IH y d), (IH y x).
Qed.

Lemma last_app_cons {A} (l1 l2 : list A) (d : A) :
  last (l1 ++ l2) d = last l2 (last l1 d).
Proof.
  revert d. induction l1 as [|x l1 IH]; intros d; [reflexivity|].
  change ((x :: l1) ++ l2) with (x :: (l1 ++ l2)).
  now rewrite !last_cons, IH.
Qed.

(** [read] is started once per change of image. *)
Lemma step_changes st ev :
  recognized (calls (step st ev))
    = recognized (calls st) ++ changes (image st) [ev] /\
  jobs (step st ev) = jobs st + List.length (changes (image st) [ev]) /\
  image (step st ev) = last (map Some (changes (image st) [ev])) (image st).
Proof.
  step_cases st ev; try rewrite Eimg; simpl;
    rewrite ?recognized_app; simpl; rewrite ?app_nil_r, ?Nat.add_0_r;
    repeat split; lia.
Qed.

Lemma changes_cons cur ev evs :
  changes cur (ev :: evs)
  = changes cur [ev] ++ changes (last (map Some (changes cur [ev])) cur) evs.
Proof.
  destruct ev as [ok | [f|] | job m | e | job r]; try reflexivity.
  simpl. now destruct (ObjectURL.img_eqb cur (Some f)).
Qed.

Lemma run_changes evs : forall st,
  recognized (calls (run st evs))
    = recognized (calls st) ++ changes (image st) evs /\
  jobs (run st evs) = jobs st + List.length (changes (image st) evs) /\
  image (run st evs) = last (map Some (changes (image st) evs)) (image st).
Proof.
  induction evs as [|ev evs IH]; intros st.
  - simpl. rewrite app_nil_r, Nat.add_0_r. auto.
  - rewrite run_cons, changes_cons.
    destruct (IH (step st ev)) as (Hc & Hj & Hi).
    destruct (step_changes st ev) as (Hc1 & Hj1 & Hi1).
    rewrite Hc, Hj, Hi, Hc1, Hj1, Hi1.
    rewrite map_app, last_app_cons, length_app, <- app_assoc.
    repeat split. lia.
Qed.

(** X2. In every run, [worker.recognize] is called exactly once for each
    [ImageChange] whose file differs from the image held when it arrives,
    in their order; events without a file or with the file already held
    cause no call.  [jobs] counts these calls and [image] is the file of
    the last one ([null] before the first). *)
Theorem recognize_once_per_image_change (evs : list Event) :
  recognized (calls (run mount evs)) = changes None evs /\
  jobs (run mount evs) = List.length (changes None evs) /\
  image (run mount evs) = last (map Some (changes None evs)) None.
Proof. exact (run_changes evs mount). Qed.

Lemma run_last_fraction evs : forall st acc base,
  progress st = match acc with Some q => percent q | None => base end ->
  progress (run st evs)
  = match lastFraction evs acc with Some q => percent q | None => base end.
Proof.
  induction evs as [|ev evs IH]; intros st acc base Hp; [exact Hp|].
  rewrite run_cons.
  step_cases st ev; try rewrite Ephase; apply IH; simpl; try exact Hp.
  reflexivity.
Qed.

(** X3. After any sequence of events whose status events carry
    fractions in [0,1], [progress] is [Math.round(fraction * 100)], with
    the binary64 product, for the last ["recognizing text"] status event
    of the sequence, whichever job it belongs to, and is unchanged when
    the sequence has none: no other event, submission and settlement
    included, ever writes it. *)
Theorem progress_is_last_recognizing_event (st : State) (evs : list Event) :
  forallb wellFormed evs = true ->
  progress (run st evs)
  = match lastFraction evs None with
    | Some fraction => Math_round (times (number fraction) 100)
    | None => progress st
    end.
Proof. intros _. now apply run_last_fraction. Qed.

Lemma progress_is_last_recognizing_event_witness :
  forallb wellFormed Scenario.readInTwoSteps = true /\
  lastFraction Scenario.readInTwoSteps None = Some 1%Q /\
  progress (run Sample.overlappingAt30 Scenario.readInTwoSteps) = 100%Z.
Proof.
  assert (Hw : forallb wellFormed Scenario.readInTwoSteps = true)
    by (vm_compute; reflexivity).
  split; [exact Hw | split; [vm_compute; reflexivity|]].
  rewrite (progress_is_last_recognizing_event Sample.overlappingAt30
             Scenario.readInTwoSteps Hw).
  vm_compute. reflexivity.
Defined.

Lemma step_progress_range st ev :
  wellFormed ev = true ->
  (0 <= progress st <= 100)%Z -> (0 <= progress (step st ev) <= 100)%Z.
Proof.
  intros Hw Hr. step_cases st ev; try exact Hr.
  simpl in Hw. apply andb_prop in Hw as [Hlo Hhi].
  apply percent_range. split; now apply Qle_bool_imp_le.
Qed.

(** X4. As long as every status event carries a fraction in [0,1],
    [progress] stays within 0..100 throughout a run. *)
Theorem progress_within_bounds (evs : list Event) :
  forallb wellFormed evs = true ->
  (0 <= progress (run mount evs) <= 100)%Z.
Proof.
  assert (H : forall st, forallb wellFormed evs = true ->
                         (0 <= progress st <= 100)%Z ->
                         (0 <= progress (run st evs) <= 100)%Z).
  { induction evs as [|ev evs IH]; intros st Hw Hr; [exact Hr|].
    simpl in Hw. apply andb_prop in Hw as [Hev Hevs].
    rewrite run_cons. apply IH; [exact Hevs|].
    now apply step_progress_range. }
  intros Hw. apply H; [exact Hw|]. simpl. lia.
Qed.

Lemma progress_within_bounds_witness :
  forallb wellFormed Scenario.readInTwoSteps = true /\
  (0 <= progress (run mount Scenario.readInTwoSteps) <= 100)%Z.
Proof.
  assert (Hw : forallb wellFormed Scenario.readInTwoSteps = true)
    by (vm_compute; reflexivity).
  split; [exact Hw|].
  exact (progress_within_bounds Scenario.readInTwoSteps Hw).
Defined.

(** X5. The normalizer is monotone: a ["recognizing text"] event with a
    larger fraction never yields a smaller [progress]. *)
Theorem logger_monotone (st st' : State) (m m' : LoggerMessage) :
  status m = "recognizing text" ->
  status m' = "recognizing text" ->
  (m_progress m <= m_progress m')%Q ->
  (progress (logger (Some m) st) <= progress (logger (Some m') st'))%Z.
Proof.
  intros Hs Hs' Hle. unfold logger. rewrite Hs, Hs', String.eqb_refl.
  now apply percent_mono.
Qed.

Lemma logger_monotone_witness :
  (3 # 10 <= 31 # 100)%Q /\
  (progress (logger (Sample.recognizingAt (3 # 10)) mount)
   <= progress (logger (Sample.recognizingAt (31 # 100)) Sample.overlapping))%Z.
Proof.
  assert (Hle : (3 # 10 <= 31 # 100)%Q) by discriminate.
  split; [exact Hle|].
  exact (logger_monotone mount Sample.overlapping
           {| status := "recognizing text"; m_progress := 3 # 10 |}
           {| status := "recognizing text"; m_progress := 31 # 100 |}
           eq_refl eq_refl Hle).
Defined.

Lemma hundredths_exact :
  forallb (fun k => Z.eqb (percent (k # 100)) k) Scenario.hundredths = true.
Proof. vm_compute. reflexivity. Qed.

(** X6. A ["recognizing text"] event whose fraction is the Number written
    [k/100], for a whole [k] from 0 to 100, sets [progress] to exactly
    [k]: the binary64 product followed by [Math.round] loses no whole
    percentage. *)
Theorem logger_whole_percent (st : State) (job : nat) (k : Z) :
  (0 <= k <= 100)%Z ->
  progress (step st (Status job (Sample.recognizingAt (k # 100)))) = k.
Proof.
  intros Hk.
  change (progress (step st (Status job (Sample.recognizingAt (k # 100)))))
    with (percent (k # 100)).
  apply Z.eqb_eq.
  apply (proj1 (forallb_forall _ _) hundredths_exact).
  unfold Scenario.hundredths.
  rewrite <- (Z2Nat.id k) by lia. apply in_map, in_seq. lia.
Qed.

Lemma logger_whole_percent_witness :
  (0 <= 29 <= 100)%Z /\
  progress (step Sample.overlapping (Status 1 (Sample.recognizingAt (29 # 100))))
    = 29%Z.
Proof.
  assert (Hk : (0 <= 29 <= 100)%Z) by lia.
  split; [exact Hk|].
  exact (logger_whole_percent Sample.overlapping 1 29 Hk).
Defined.

(* ------------------------------------------------------------------ *)
(** ** What is displayed *)

Lemma step_ocr st ev :
  ocr (step st ev) = ocr st \/
  exists job data, ev = RecognizeSettle job (Resolved data) /\
                   ocr (step st ev) = Some data.
Proof.
  step_cases st ev; auto. right. now exists job, data.
Qed.

(** X7. [result] only ever holds a page the engine returned, unchanged:
    after any sequence of events it is either what it was or the page of
    one of the successful settlements of the sequence.  And once a page
    is held, no event (error, rejection or new submission) clears it. *)
Theorem result_is_an_engine_page (st : State) (evs : list Event) :
  (ocr (run st evs) = ocr st \/
   exists job data, In (RecognizeSettle job (Resolved data)) evs /\
                    ocr (run st evs) = Some data) /\
  (ocr (run st evs) = None -> ocr st = None).
Proof.
  revert st. induction evs as [|ev evs IH]; intros st.
  - split; auto.
  - rewrite run_cons. destruct (IH (step st ev)) as (Hprov & Hkeep). split.
    + destruct Hprov as [Hsame | (job & data & Hin & Ho)].
      * rewrite Hsame.
        destruct (step_ocr st ev) as [Hs | (job & data & -> & Ho)]; auto.
        right. exists job, data. split; [now left | exact Ho].
      * right. exists job, data. split; [now right | exact Ho].
    + intros Hn. specialize (Hkeep Hn).
      destruct (step_ocr st ev) as [Hs | (job & data & _ & Ho)]; congruence.
Qed.

Lemma step_alerting st ev :
  dismisses ev = false -> alerting st = true -> alerting (step st ev) = true.
Proof.
  unfold alerting. intros Hd Ha.
  step_cases st ev; try exact Ha; try discriminate.
  simpl in Hd. now apply negb_false_iff in Hd.
Qed.

(** X8. Once a truthy error is held, the view is the error alert, and
    stays so through any events, new submissions and their status events
    included, until a recognition call resolves with a page or the engine
    hands the error handler a falsy value: the retry shows neither
    preview nor progress bar. *)
Theorem alert_stays_until_success (st : State) (evs : list Event) :
  alerting st = true ->
  existsb dismisses evs = false ->
  render (run st evs) = ErrorAlert.
Proof.
  intros Ha Hd.
  assert (H : alerting (run st evs) = true).
  { revert st Ha. induction evs as [|ev evs IH]; intros st Ha; [exact Ha|].
    simpl in Hd. apply orb_false_elim in Hd as [Hev Hevs].
    rewrite run_cons. apply (IH Hevs). now apply step_alerting. }
  unfold render. now rewrite H.
Qed.

Lemma alert_stays_until_success_witness :
  alerting Sample.afterFault = true /\
  existsb dismisses Scenario.failedRetry = false /\
  render (run Sample.afterFault Scenario.failedRetry) = ErrorAlert.
Proof.
  assert (Ha : alerting Sample.afterFault = true) by (vm_compute; reflexivity).
  assert (Hd : existsb dismisses Scenario.failedRetry = false)
    by (vm_compute; reflexivity).
  split; [exact Ha | split; [exact Hd|]].
  exact (alert_stays_until_success Sample.afterFault Scenario.failedRetry Ha Hd).
Defined.

Module PreviewFacts.
Import ObjectURL.


Lemma cleanup_revokes cur hs :
  settled cur hs -> live (snd (run_cleanup hs)) = [].
Proof.
  destruct hs as [h s]. intros (Hsh & Hcl & _). simpl in Hcl.
  unfold run_cleanup. rewrite Hcl.
  destruct cur as [f|]; simpl in Hsh.
  - destruct Hsh as (u & -> & Hl). simpl. rewrite Hl. simpl.
    now rewrite Nat.eqb_refl.
  - destruct Hsh as (-> & Hl). exact Hl.
Qed.

Lemma effect_settles img hs :
  live (snd hs) = [] -> settled img (run_effect img hs).
Proof.
  destruct hs as [h s]. simpl. intros Hl.
  destruct img as [f|]; unfold settled, shows; simpl.
  - rewrite Hl. simpl. repeat split. now exists (fresh s).
  - auto.
Qed.

Lemma useObjectURL_settled cur img hs :
  settled cur hs -> settled img (useObjectURL img hs).
Proof.
  intros Hs. unfold useObjectURL.
  destruct (deps_changed (fst hs) img) eqn:E.
  - apply effect_settles. now apply (cleanup_revokes cur).
  - unfold deps_changed in E. destruct Hs as (Hsh & Hcl & Hd).
    destruct (deps (fst hs)) as [d|] eqn:Ed; [|discriminate].
    apply negb_false_iff, ObjectURLFacts.img_eqb_eq in E. subst.
    unfold settled. rewrite Ed. auto.
Qed.




End PreviewFacts.

Lemma step_settled st ev :
  settled (image st) (hook st, store st) ->
  settled (image (step st ev)) (hook (step st ev), store (step st ev)).
Proof.
  intros Hi. step_cases st ev; try exact Hi.
  rewrite <- surjective_pairing.
  eapply PreviewFacts.useObjectURL_settled; eauto.
Qed.

Lemma run_settled evs : forall st,
  settled (image st) (hook st, store st) ->
  settled (image (run st evs)) (hook (run st evs), store (run st evs)).
Proof.
  induction evs as [|ev evs IH]; intros st Hi; [exact Hi|].
  rewrite run_cons. apply IH. now apply step_settled.
Qed.

Lemma mount_settled : settled (image mount) (hook mount, store mount).
Proof. repeat split; vm_compute; reflexivity. Qed.


(** X10. Rendering the hook again with the image it already holds does
    nothing: no URL is revoked or created, so the re-renders caused by
    progress updates keep the preview URL. *)
Theorem useObjectURL_rerender_is_noop
        (img : option File) (hs : ObjectURL.Hook * ObjectURL.Store) :
  ObjectURL.useObjectURL img (ObjectURL.useObjectURL img hs)
  = ObjectURL.useObjectURL img hs.
Proof.
  assert (Hrefl : ObjectURL.img_eqb img img = true)
    by now apply ObjectURLFacts.img_eqb_eq.
  unfold ObjectURL.useObjectURL.
  destruct (ObjectURL.deps_changed (fst hs) img) eqn:E.
  - assert (Hd : ObjectURL.deps_changed
                   (fst (ObjectURL.run_effect img (ObjectURL.run_cleanup hs))) img
                 = false).
    { destruct (ObjectURL.run_cleanup hs) as [h s].
      unfold ObjectURL.deps_changed.
      destruct img as [f|]; simpl; simpl in Hrefl; now rewrite ?Hrefl. }
    now rewrite Hd.
  - now rewrite E.
Qed.

Lemma last_map_Some {A} (l : list A) (x : A) (d : option A) :
  last (map Some (x :: l)) d <> None.
Proof.
  revert x. induction l as [|y l IH]; intros x; [discriminate|].
  change (last (map Some (x :: y :: l)) d) with (last (map Some (y :: l)) d).
  apply IH.
Qed.

(** No image is held only as long as nothing was submitted. *)
Lemma run_image_jobs evs :
  image (run mount evs) = None -> jobs (run mount evs) = 0.
Proof.
  destruct (run_changes evs mount) as (_ & Hj & Hi).
  rewrite Hj, Hi. simpl image. simpl jobs.
  destruct (changes None evs) as [|f l]; [reflexivity|].
  intros Hn. now apply last_map_Some in Hn.
Qed.

(** X11. In every state of [App] between events, once the effects an
    event triggers have run and [App] has rendered again, whenever the
    progress bar is displayed its value is [progress], the read of the
    last submitted image is in flight, and the bar comes with the preview
    of that image, whose URL is live. *)
Theorem progress_bar_means_reading
        (evs : list Event) (preview : option URL) (value : Z) :
  render (run mount evs) = Panel preview (ProgressBar value) ->
  value = progress (run mount evs) /\
  (exists job, current (run mount evs) = Some job /\
               pending job (run mount evs) = true) /\
  (exists u f, preview = Some u /\ image (run mount evs) = Some f /\
               ObjectURL.live (store (run mount evs)) = [(u, f)]).
Proof.
  intros Hr.
  pose proof (run_loading_tracked evs mount mount_loading_tracked) as Ht.
  pose proof (run_settled evs mount mount_settled) as (Hs & _).
  pose proof (run_image_jobs evs) as Hz.
  unfold render, panel in Hr. unfold loading_tracked in Ht.
  destruct (alerting (run mount evs)); [discriminate|].
  destruct (loading (run mount evs)).
  - inversion Hr; subst. split; [reflexivity|].
    destruct (Ht eq_refl) as (job & Hcur & Hp).
    split; [now exists job|].
    unfold shows in Hs. destruct (image (run mount evs)) as [f|] eqn:Ei.
    + destruct Hs as (u & Hu & Hl). exists u, f. simpl in Hu, Hl. auto.
    + unfold current in Hcur. rewrite (Hz eq_refl) in Hcur. discriminate.
  - destruct (ocr (run mount evs)); discriminate.
Qed.

Lemma progress_bar_means_reading_witness :
  render (run mount Scenario.overlappingEvents) = Panel (Some 1) (ProgressBar 30) /\
  current (run mount Scenario.overlappingEvents) = Some 1 /\
  pending 1 (run mount Scenario.overlappingEvents) = true /\
  ObjectURL.live (store (run mount Scenario.overlappingEvents)) = [(1, 2)].
Proof.
  assert (Hr : render (run mount Scenario.overlappingEvents)
               = Panel (Some 1) (ProgressBar 30))
    by (vm_compute; reflexivity).
  split; [exact Hr|].
  destruct (progress_bar_means_reading Scenario.overlappingEvents
              (Some 1) 30%Z Hr) as (_ & _ & _).
  repeat split; vm_compute; reflexivity.
Defined.

(** X12. When an in-flight recognition call resolves with a page, the
    view leaves the error alert, whatever error was held, and shows the
    page's word count, line count, confidence and text next to the
    preview. *)
Theorem success_shows_the_page (st : State) (job : nat) (data : Page) :
  pending job st = true ->
  render (step st (RecognizeSettle job (Resolved data)))
    = Panel (ObjectURL.objUrl (hook st))
            (Results (List.length (words data)) (List.length (lines data))
                     (confidence data) (text data)).
Proof.
  intros Hp. rewrite (step_settle st job _ Hp). reflexivity.
Qed.

Lemma success_shows_the_page_witness :
  pending 1 Scenario.retrying = true /\
  render Scenario.retrying = ErrorAlert /\
  render (step Scenario.retrying (RecognizeSettle 1 (Resolved Sample.pageA)))
    = Panel (ObjectURL.objUrl (hook Scenario.retrying))
            (Results 10 2 (185 # 2)
                     "the quick brown fox jumps over the lazy dog again").
Proof.
  assert (Hp : pending 1 Scenario.retrying = true) by (vm_compute; reflexivity).
  split; [exact Hp | split; [vm_compute; reflexivity|]].
  exact (success_shows_the_page Scenario.retrying 1 Sample.pageA Hp).
Defined.
